(** * data_generation.py: the stimulus file generator of the Adler32 testbench

    A shallow embedding of [generate_string], [generate_datafile] and the
    program entry point, followed by the properties of the frame encoding
    and of the generated file.

    Conventions of the embedding
    - a Python [int] is a [Z];
    - a Python [str] is the list of its code points ([pystr]); a character
      is a code point, so that characters beyond Latin-1 are representable;
    - a Python [float] appears only as the probability and as the result of
      [rand.uniform(0, 1)], and only under [<]; it is modelled by the
      rational it denotes (comparison of finite floats is exact);
    - the [random] module is an oracle: a run of the program is driven by
      the tape of the answers the module gives, in the order the calls are
      made;
    - printing, opening, writing and closing are recorded in a trace of
      effects; the file system itself never fails. *)

From Stdlib Require Import List Bool Arith ZArith NArith PArith QArith.
From Stdlib Require Import Ascii String Lia FunInd.
Import ListNotations.
Close Scope Q_scope.

(** ** Python values *)

(** A character is its code point, a string the list of its characters. *)
#[warnings="-notation-for-abbreviation"]
Notation char := N (only parsing).
#[warnings="-notation-for-abbreviation"]
Notation pystr := (list N) (only parsing).

(** A string literal of the source, as code points. *)
Definition py (s : string) : pystr :=
  map N_of_ascii (list_ascii_of_string s).

Definition NUL : pystr := [0%N].     (* "\0" *)
Definition NL : pystr := [10%N].     (* "\n" *)

Inductive exn := IndexError | TypeError.

Inductive res (A : Type) :=
| Ok (a : A)
| Err (e : exn).
Arguments Ok {A} a.
Arguments Err {A} e.

(** [len(s)] *)
Definition len (s : pystr) : Z := Z.of_nat (List.length s).

(** [ord(s)]: the code point of a one-character string, [TypeError] for
    any other length. *)
Definition ord (s : pystr) : res Z :=
  match s with
  | [c] => Ok (Z.of_N c)
  | _ => Err TypeError
  end.

(** [chr(i)] on the range the program calls it with. *)
Definition chr (i : Z) : pystr := [Z.to_N i].

(** The binary digits of a positive number, most significant first. *)
Fixpoint pos_digits (p : positive) (acc : pystr) : pystr :=
  match p with
  | xH => 49%N :: acc
  | xO q => pos_digits q (48%N :: acc)
  | xI q => pos_digits q (49%N :: acc)
  end.

(** [bin(n)]: ["0b..."], with a leading ["-"] for a negative number. *)
Definition bin (n : Z) : pystr :=
  match n with
  | Z0 => py "0b0"
  | Zpos p => py "0b" ++ pos_digits p []
  | Zneg p => py "-0b" ++ pos_digits p []
  end.

(** [s[2:]] *)
Definition from2 (s : pystr) : pystr := skipn 2 s.

(** The format specification [:0>w]: right-align in a field of at least
    [w] characters filled with ["0"]; a longer string is left as it is. *)
Definition zfill_right (w : nat) (s : pystr) : pystr :=
  repeat 48%N (w - List.length s) ++ s.

(** ** generate_string *)

Definition generate_string
  (size_valid : bool) (size : Z) (data_valid : bool) (data : pystr) : res pystr :=
  let size_valid := if size_valid then py "1" else py "0" in
  let size := zfill_right 32 (from2 (bin size)) in
  let data_valid := if data_valid then py "1" else py "0" in
  match ord data with
  | Err e => Err e
  | Ok code =>
      let data := zfill_right 8 (from2 (bin code)) in
      Ok (size_valid ++ py "_" ++ size ++ py "_" ++ data_valid ++ py "_" ++ data)
  end.

(** ** The random module as an oracle *)

(** One answer of the [random] module: the float returned by
    [rand.uniform(0, 1)], or the integer returned by [rand.randint(a, b)]. *)
Inductive draw :=
| Uniform (x : Q)
| Randint (i : Z).

Definition tape := list draw.

(** [x < y] on the floats the program compares. *)
Definition Qltb (x y : Q) : bool := negb (Qle_bool y x).

(** [rand.uniform(0, 1)] is [0 + (1 - 0) * random()] with [random()] in
    [0, 1): the answers it can give. *)
Definition uniform_answer (x : Q) : bool := Qle_bool 0 x && Qltb x 1.

(** [rand.randint(a, b)] returns an integer [i] with [a <= i <= b]: both
    ends are included. *)
Definition randint_answer (a b i : Z) : bool := ((a <=? i) && (i <=? b))%Z.

(** ** Effects and outcomes *)

Inductive event :=
| Print (s : pystr)
| Open (filename : pystr)
| Write (s : pystr)
| Close.

(** How far a run got on the draws of its tape.
    - [Returned rest]: the code ran to its end and left [rest] unread;
    - [Starved]: every draw was consumed and the code asks for one more,
      it is still running;
    - [Refused]: the next draw is not an answer the call could receive,
      the tape describes no run;
    - [Raised e]: the exception [e] propagated. *)
Inductive outcome :=
| Returned (rest : tape)
| Starved
| Refused
| Raised (e : exn).

Record run := { effects : list event; result : outcome }.

(** A loop reports the strings it wrote to the file, in order. *)
Definition wrote (s : pystr) (r : list pystr * outcome) : list pystr * outcome :=
  (s :: fst r, snd r).

(** ** generate_datafile *)

(** The first [while True] loop (lines 23-29). *)
Fixpoint size_loop (data : pystr) (random_value_chance : Q) (t : tape)
  : list pystr * outcome :=
  match t with
  | [] => ([], Starved)
  | Randint _ :: _ => ([], Refused)
  | Uniform random_number :: t1 =>
      if negb (uniform_answer random_number) then ([], Refused)
      else if Qltb random_number random_value_chance then
        match generate_string true (len data) false NUL with
        | Err e => ([], Raised e)
        | Ok s => ([s ++ NL], Returned t1)
        end
      else
        match t1 with
        | [] => ([], Starved)
        | Uniform _ :: _ => ([], Refused)
        | Randint i :: t2 =>
            if negb (randint_answer 0 (2 ^ 32) i) then ([], Refused)
            else
              match generate_string false i false NUL with
              | Err e => ([], Raised e)
              | Ok s => wrote (s ++ NL) (size_loop data random_value_chance t2)
              end
        end
  end.

(** The inner [while True] loop, for the character [c] (lines 33-39).  The
    arguments of a call are evaluated left to right: the size is drawn
    before the noise character. *)
Fixpoint char_loop (random_value_chance : Q) (c : pystr) (t : tape)
  : list pystr * outcome :=
  match t with
  | [] => ([], Starved)
  | Randint _ :: _ => ([], Refused)
  | Uniform random_number :: t1 =>
      if negb (uniform_answer random_number) then ([], Refused)
      else if Qltb random_number random_value_chance then
        match t1 with
        | [] => ([], Starved)
        | Uniform _ :: _ => ([], Refused)
        | Randint i :: t2 =>
            if negb (randint_answer 0 (2 ^ 32) i) then ([], Refused)
            else
              match generate_string false i true c with
              | Err e => ([], Raised e)
              | Ok s => ([s ++ NL], Returned t2)
              end
        end
      else
        match t1 with
        | [] => ([], Starved)
        | Uniform _ :: _ => ([], Refused)
        | Randint i :: t2 =>
            if negb (randint_answer 0 (2 ^ 32) i) then ([], Refused)
            else
              match t2 with
              | [] => ([], Starved)
              | Uniform _ :: _ => ([], Refused)
              | Randint j :: t3 =>
                  if negb (randint_answer 65 122 j) then ([], Refused)
                  else
                    match generate_string false i false (chr j) with
                    | Err e => ([], Raised e)
                    | Ok s => wrote (s ++ NL) (char_loop random_value_chance c t3)
                    end
              end
        end
  end.

(** [for c in data] (line 32): [c] is the one-character string at each
    position. *)
Fixpoint for_loop (random_value_chance : Q) (data : pystr) (t : tape)
  : list pystr * outcome :=
  match data with
  | [] => ([], Returned t)
  | c :: data' =>
      match char_loop random_value_chance [c] t with
      | (w, Returned t') =>
          let r := for_loop random_value_chance data' t' in (w ++ fst r, snd r)
      | r => r
      end
  end.

(** The [with] statement closes the file when its body is left, by its end
    or by an exception. *)
Definition closing (o : outcome) : list event :=
  match o with
  | Returned _ | Raised _ => [Close]
  | Starved | Refused => []
  end.

Definition generate_datafile
  (filename data : pystr) (random_value_chance : Q) (t : tape) : run :=
  let opening :=
    [ Print (py "Generating data for string: " ++ data);
      Open filename;
      Write (py "# " ++ data ++ NL) ] in
  match size_loop data random_value_chance t with
  | (w1, Returned t1) =>
      let r := for_loop random_value_chance data t1 in
      {| effects := opening ++ map Write (w1 ++ fst r) ++ closing (snd r);
         result := snd r |}
  | (w1, o) =>
      {| effects := opening ++ map Write w1 ++ closing o; result := o |}
  end.

(** ** The entry point *)

Section Main.

(** The builtins [ascii] and [str.lower] are not code of the program. *)
Variable ascii_repr : pystr -> pystr.
Variable lower : pystr -> pystr.

(** The body of [if __name__ == "__main__":] on the argument vector
    [argv]; [sys.argv[1]] raises [IndexError] when [argv] has no element
    at index 1, before anything is printed or opened. *)
Definition main (argv : list pystr) (t : tape) : run :=
  match nth_error argv 1 with
  | None => {| effects := []; result := Raised IndexError |}
  | Some arg =>
      let dat := ascii_repr arg in
      let r := generate_datafile (lower dat) dat (1 # 4)%Q t in
      {| effects := Print (py "Generating data for string: " ++ dat) :: effects r;
         result := result r |}
  end.

End Main.

(** ** Reading a file back

    What a consumer of the file sees: its text, its lines, and the four
    fields of a frame line.  These definitions follow the format of the
    specification, not the generator. *)

(** The text of the file: what was written, in order. *)
Definition file_text (r : run) : pystr :=
  flat_map (fun e => match e with Write s => s | _ => [] end) (effects r).

(** The lines of a text; every line feed ends a line. *)
Fixpoint lines (s : pystr) : list pystr :=
  match s with
  | [] => []
  | c :: s' =>
      if (c =? 10)%N then [] :: lines s'
      else match lines s' with
           | l :: ls => (c :: l) :: ls
           | [] => [[c]]
           end
  end.

(** [s.split(sep)] for a one-character separator. *)
Fixpoint split (sep : char) (s : pystr) : list pystr :=
  match s with
  | [] => [[]]
  | c :: s' =>
      if (c =? sep)%N then [] :: split sep s'
      else match split sep s' with
           | l :: ls => (c :: l) :: ls
           | [] => [[c]]
           end
  end.

Definition is_comment (line : pystr) : bool :=
  match line with
  | c :: _ => (c =? 35)%N
  | [] => false
  end.

Definition is_bit (c : char) : bool := (c =? 48)%N || (c =? 49)%N.

(** [int(s, 2)] on a string of binary digits: a big-endian numeral. *)
Fixpoint int2_from (acc : Z) (s : pystr) : option Z :=
  match s with
  | [] => Some acc
  | c :: s' =>
      if (c =? 48)%N then int2_from (2 * acc) s'
      else if (c =? 49)%N then int2_from (2 * acc + 1) s'
      else None
  end.

Definition int2 (s : pystr) : option Z :=
  match s with
  | [] => None
  | _ => int2_from 0 s
  end.

(** The grammar of a frame line, [^[01]_[01]{32}_[01]_[01]{8}$]. *)
Definition frame_grammar (s : pystr) : bool :=
  match s with
  | a :: u1 :: rest =>
      is_bit a && (u1 =? 95)%N
      && (List.length (firstn 32 rest) =? 32)%nat && forallb is_bit (firstn 32 rest)
      && match skipn 32 rest with
         | u2 :: b :: u3 :: tail =>
             (u2 =? 95)%N && is_bit b && (u3 =? 95)%N
             && (List.length tail =? 8)%nat && forallb is_bit tail
         | _ => false
         end
  | _ => false
  end.

(** The 32-bit field of a frame line: characters 3 to 34. *)
Definition size_field (s : pystr) : pystr := firstn 32 (skipn 2 s).

(** The 8-bit field of a frame line: its last 8 characters. *)
Definition data_field (s : pystr) : pystr := skipn (List.length s - 8) s.

(** A frame line cut at its underscores. *)
Record frame := {
  size_valid_bit : pystr;
  size_bits : pystr;
  data_valid_bit : pystr;
  data_bits : pystr
}.

Definition read_frame (line : pystr) : option frame :=
  match split 95%N line with
  | [a; b; c; d] =>
      Some {| size_valid_bit := a; size_bits := b; data_valid_bit := c; data_bits := d |}
  | _ => None
  end.

Definition is_one (s : pystr) : bool :=
  match s with
  | [c] => (c =? 49)%N
  | _ => false
  end.

(** The value of a one-character flag field. *)
Definition flag_value (s : pystr) : option bool :=
  match s with
  | [c] => if (c =? 48)%N then Some false
           else if (c =? 49)%N then Some true else None
  | _ => None
  end.

(** A frame line read back: cut at the underscores, the flags and the two
    binary numerals, whatever their widths. *)
Definition decode_frame (line : pystr) : option (bool * Z * bool * Z) :=
  match read_frame line with
  | Some f =>
      match flag_value (size_valid_bit f), int2 (size_bits f),
            flag_value (data_valid_bit f), int2 (data_bits f) with
      | Some sv, Some size, Some dv, Some code => Some (sv, size, dv, code)
      | _, _, _, _ => None
      end
  | None => None
  end.

(** ** The vocabulary of the proofs *)

(** [bin(n)[2:]], the text both fields are made of. *)
Definition digits (n : Z) : pystr := from2 (bin n).

(** The character of a flag. *)
Definition bit_of (b : bool) : char := if b then 49%N else 48%N.

(** Neither an underscore nor a line feed. *)
Definition plain (c : char) : Prop := c <> 95%N /\ c <> 10%N.

(** The string [generate_string] returns on a character [c] (lemma
    [generate_string_char]), cut before its last field. *)
Definition frame_head (size_valid : bool) (size : Z) (data_valid : bool) : pystr :=
  bit_of size_valid :: 95%N :: zfill_right 32 (digits size)
    ++ [95%N; bit_of data_valid; 95%N].

Definition frame_of (size_valid : bool) (size : Z) (data_valid : bool) (c : char)
  : pystr :=
  frame_head size_valid size data_valid ++ zfill_right 8 (digits (Z.of_N c)).

(** The line written for [generate_string(size_valid, size, data_valid, c)]
    on a character [c]. *)
Definition frame_line (size_valid : bool) (size : Z) (data_valid : bool) (c : char)
  : pystr :=
  match generate_string size_valid size data_valid [c] with
  | Ok s => s ++ NL
  | Err _ => []
  end.

(** What every run starts with: the message, the file, the comment. *)
Definition opening (filename data : pystr) : list event :=
  [ Print (py "Generating data for string: " ++ data);
    Open filename;
    Write (py "# " ++ data ++ NL) ].

(** What one write of a loop holds: the four arguments of the call of
    [generate_string] behind it. *)
Record entry := {
  e_size_valid : bool;
  e_size : Z;
  e_data_valid : bool;
  e_char : char
}.

(** The frame of an entry, and the line written for it. *)
Definition entry_frame (e : entry) : pystr :=
  frame_of (e_size_valid e) (e_size e) (e_data_valid e) (e_char e).

Definition entry_line (e : entry) : pystr :=
  frame_of (e_size_valid e) (e_size e) (e_data_valid e) (e_char e) ++ NL.

(** The four fields a reader cuts out of the frame of an entry. *)
Definition fields_of (e : entry) : frame :=
  {| size_valid_bit := [bit_of (e_size_valid e)];
     size_bits := zfill_right 32 (digits (e_size e));
     data_valid_bit := [bit_of (e_data_valid e)];
     data_bits := zfill_right 8 (digits (Z.of_N (e_char e))) |}.

(** Every integer on the tape satisfies [P]. *)
Definition tape_sat (P : Z -> Prop) (t : tape) : Prop :=
  Forall (fun d => match d with Randint i => P i | Uniform _ => True end) t.

(** A noise write: both flags down, a size from the tape, a character that
    is "\0" or drawn in 65..122. *)
Definition noise (P : Z -> Prop) (e : entry) : Prop :=
  e_size_valid e = false /\ e_data_valid e = false
  /\ (e_char e < 128)%N /\ P (e_size e) /\ (0 <= e_size e)%Z.

(** The write that carries the character [c]. *)
Definition payload (P : Z -> Prop) (c : char) (e : entry) : Prop :=
  e_size_valid e = false /\ e_data_valid e = true
  /\ e_char e = c /\ P (e_size e) /\ (0 <= e_size e)%Z.

(** The write that ends the first loop. *)
Definition terminal (data : pystr) : entry :=
  {| e_size_valid := true; e_size := len data; e_data_valid := false; e_char := 0%N |}.

(** The answers to the trials of a loop, a float and a size for each: the
    tape they make, when they are answers the calls can receive, and when
    the trial moreover succeeds at chance [p]. *)
Definition trial_draws (draws : list (Q * Z)) : tape :=
  flat_map (fun d => [Uniform (fst d); Randint (snd d)]) draws.

Definition good_draw (d : Q * Z) : Prop :=
  uniform_answer (fst d) = true /\ randint_answer 0 (2 ^ 32) (snd d) = true.

Definition good_trial (p : Q) (d : Q * Z) : Prop :=
  uniform_answer (fst d) = true /\ Qltb (fst d) p = true
  /\ randint_answer 0 (2 ^ 32) (snd d) = true.

(** The line of the data frame of a character and its trial. *)
Definition payload_line (cd : char * (Q * Z)) : pystr :=
  frame_of false (snd (snd cd)) true (fst cd) ++ NL.

(** What an entry reads back as. *)
Definition entry_tuple (e : entry) : bool * Z * bool * Z :=
  (e_size_valid e, e_size e, e_data_valid e, Z.of_N (e_char e)).

(** The flags and the code of a frame read back. *)
Definition tuple_size_valid (f : bool * Z * bool * Z) : bool := fst (fst (fst f)).
Definition tuple_data_valid (f : bool * Z * bool * Z) : bool := snd (fst f).
Definition tuple_code (f : bool * Z * bool * Z) : Z := snd f.

(** Induction along the cases of the two [while] loops. *)
Functional Scheme size_loop_ind := Induction for size_loop Sort Prop.
Functional Scheme char_loop_ind := Induction for char_loop Sort Prop.

(** * Properties *)

(** ** Binary digits *)

Lemma pos_digits_acc (p : positive) (acc : pystr) :
  pos_digits p acc = pos_digits p [] ++ acc.
Proof.
  revert acc.
  induction p as [q IH | q IH | ]; intro acc; simpl; trivial.
  - rewrite (IH (49%N :: acc)), (IH [49%N]), <- app_assoc. reflexivity.
  - rewrite (IH (48%N :: acc)), (IH [48%N]), <- app_assoc. reflexivity.
Qed.

Lemma digits_pos (p : positive) : digits (Zpos p) = pos_digits p [].
Proof. reflexivity. Qed.

Lemma digits_zero : digits 0 = [48%N].
Proof. reflexivity. Qed.

Lemma digits_neg (p : positive) : digits (Zneg p) = 98%N :: pos_digits p [].
Proof. reflexivity. Qed.

Lemma pos_digits_length (p : positive) :
  List.length (pos_digits p []) = Pos.size_nat p.
Proof.
  induction p as [q IH | q IH | ]; simpl; trivial;
    rewrite pos_digits_acc, length_app, IH; simpl; lia.
Qed.

Lemma pos_digits_bits (p : positive) : forallb is_bit (pos_digits p []) = true.
Proof.
  induction p as [q IH | q IH | ]; simpl; trivial;
    rewrite pos_digits_acc, forallb_app, IH; reflexivity.
Qed.

Lemma size_nat_bound (p : positive) (k : nat) :
  (Zpos p < 2 ^ Z.of_nat k)%Z -> (Pos.size_nat p <= k)%nat.
Proof.
  revert k.
  induction p as [q IH | q IH | ]; intros [ | k] H; simpl.
  - change (2 ^ Z.of_nat 0)%Z with 1%Z in H. lia.
  - apply le_n_S, IH. rewrite Nat2Z.inj_succ, Z.pow_succ_r in H; lia.
  - change (2 ^ Z.of_nat 0)%Z with 1%Z in H. lia.
  - apply le_n_S, IH. rewrite Nat2Z.inj_succ, Z.pow_succ_r in H; lia.
  - change (2 ^ Z.of_nat 0)%Z with 1%Z in H. lia.
  - lia.
Qed.

Lemma size_nat_lower (p : positive) (k : nat) :
  (2 ^ Z.of_nat k <= Zpos p)%Z -> (k < Pos.size_nat p)%nat.
Proof.
  revert k.
  induction p as [q IH | q IH | ]; intros [ | k] H; simpl; try lia.
  - apply -> Nat.succ_lt_mono. apply IH.
    rewrite Nat2Z.inj_succ, Z.pow_succ_r in H; lia.
  - apply -> Nat.succ_lt_mono. apply IH.
    rewrite Nat2Z.inj_succ, Z.pow_succ_r in H; lia.
  - rewrite Nat2Z.inj_succ, Z.pow_succ_r in H by lia.
    assert (0 < 2 ^ Z.of_nat k)%Z by (apply Z.pow_pos_nonneg; lia). lia.
Qed.

Lemma digits_length_le (n : Z) (k : nat) :
  (0 <= n < 2 ^ Z.of_nat k)%Z -> (0 < k)%nat -> (List.length (digits n) <= k)%nat.
Proof.
  intros [H0 H1] Hk. destruct n as [ | p | p]; try lia.
  - simpl. lia.
  - rewrite digits_pos, pos_digits_length. now apply size_nat_bound.
Qed.

Lemma digits_bits (n : Z) : (0 <= n)%Z -> forallb is_bit (digits n) = true.
Proof.
  destruct n as [ | p | p]; intro H; try lia; trivial.
  rewrite digits_pos. apply pos_digits_bits.
Qed.

Lemma digits_nonempty (n : Z) : digits n <> [].
Proof.
  destruct n as [ | p | p]; try discriminate.
  rewrite digits_pos. intro E. apply (f_equal (@List.length _)) in E.
  rewrite pos_digits_length in E. destruct p; discriminate.
Qed.

(** ** Reading a numeral back *)

Lemma int2_from_0 (acc : Z) (s : pystr) :
  int2_from acc (48%N :: s) = int2_from (2 * acc) s.
Proof. reflexivity. Qed.

Lemma int2_from_1 (acc : Z) (s : pystr) :
  int2_from acc (49%N :: s) = int2_from (2 * acc + 1) s.
Proof. reflexivity. Qed.

Lemma int2_from_app_pos (p : positive) (acc : Z) (rest : pystr) :
  int2_from acc (pos_digits p [] ++ rest)
  = int2_from (acc * 2 ^ Z.of_nat (Pos.size_nat p) + Zpos p) rest.
Proof.
  revert acc rest.
  induction p as [q IH | q IH | ]; intros acc rest.
  - change (pos_digits q~1 []) with (pos_digits q [49%N]).
    rewrite pos_digits_acc, <- app_assoc, IH.
    change ([49%N] ++ rest) with (49%N :: rest). rewrite int2_from_1.
    change (Pos.size_nat q~1) with (S (Pos.size_nat q)).
    rewrite Nat2Z.inj_succ, Z.pow_succ_r by lia. f_equal. lia.
  - change (pos_digits q~0 []) with (pos_digits q [48%N]).
    rewrite pos_digits_acc, <- app_assoc, IH.
    change ([48%N] ++ rest) with (48%N :: rest). rewrite int2_from_0.
    change (Pos.size_nat q~0) with (S (Pos.size_nat q)).
    rewrite Nat2Z.inj_succ, Z.pow_succ_r by lia. f_equal. lia.
  - change (pos_digits 1 [] ++ rest) with (49%N :: rest).
    rewrite int2_from_1. f_equal.
    change (2 ^ Z.of_nat (Pos.size_nat 1))%Z with 2%Z. lia.
Qed.

Lemma int2_from_zeros (k : nat) (s : pystr) :
  int2_from 0 (repeat 48%N k ++ s) = int2_from 0 s.
Proof. induction k as [ | k IH]; simpl; trivial. Qed.

Lemma int2_from_digits (n : Z) :
  (0 <= n)%Z -> int2_from 0 (digits n) = Some n.
Proof.
  destruct n as [ | p | p]; intro H; try lia; trivial.
  rewrite digits_pos, <- (app_nil_r (pos_digits p [])), int2_from_app_pos.
  reflexivity.
Qed.

Lemma int2_zfill (w : nat) (n : Z) :
  (0 <= n)%Z -> int2 (zfill_right w (digits n)) = Some n.
Proof.
  intro H. unfold zfill_right, int2.
  destruct (repeat 48%N (w - List.length (digits n)) ++ digits n) eqn:E.
  - apply app_eq_nil in E. destruct E as [_ E]. now apply digits_nonempty in E.
  - rewrite <- E, int2_from_zeros. now apply int2_from_digits.
Qed.

(** ** Lists *)

Lemma firstn_exact (A : Type) (a b : list A) (n : nat) :
  List.length a = n -> firstn n (a ++ b) = a.
Proof.
  intros <-. induction a as [ | x a IH]; simpl.
  - reflexivity.
  - now rewrite IH.
Qed.

Lemma skipn_exact (A : Type) (a b : list A) (n : nat) :
  List.length a = n -> skipn n (a ++ b) = b.
Proof.
  intros <-. induction a as [ | x a IH]; simpl; trivial.
Qed.

Lemma zfill_right_length (w : nat) (s : pystr) :
  List.length (zfill_right w s) = Nat.max w (List.length s).
Proof. unfold zfill_right. rewrite length_app, repeat_length. lia. Qed.

Lemma zfill_right_bits (w : nat) (s : pystr) :
  forallb is_bit s = true -> forallb is_bit (zfill_right w s) = true.
Proof.
  intro H. unfold zfill_right. rewrite forallb_app, H, andb_true_r.
  induction (w - List.length s)%nat as [ | k IH]; simpl; trivial.
Qed.

(** ** The shape of a frame *)

Lemma generate_string_char (size_valid data_valid : bool) (size : Z) (c : char) :
  generate_string size_valid size data_valid [c]
  = Ok (frame_of size_valid size data_valid c).
Proof.
  unfold generate_string, frame_of, frame_head, ord, digits.
  destruct size_valid, data_valid; cbn [bit_of py map list_ascii_of_string app];
    f_equal; simpl; rewrite <- app_assoc; reflexivity.
Qed.

Lemma generate_string_not_char (size_valid data_valid : bool) (size : Z) (data : pystr) :
  List.length data <> 1%nat ->
  generate_string size_valid size data_valid data = Err TypeError.
Proof.
  intro H. unfold generate_string.
  destruct data as [ | c [ | d data]]; simpl in *; trivial; lia.
Qed.

Lemma frame_head_length (size_valid data_valid : bool) (size : Z) :
  List.length (frame_head size_valid size data_valid)
  = (5 + Nat.max 32 (List.length (digits size)))%nat.
Proof.
  unfold frame_head. simpl. rewrite length_app, zfill_right_length. simpl. lia.
Qed.

Lemma frame_of_length (size_valid data_valid : bool) (size : Z) (c : char) :
  List.length (frame_of size_valid size data_valid c)
  = (5 + Nat.max 32 (List.length (digits size))
     + Nat.max 8 (List.length (digits (Z.of_N c))))%nat.
Proof.
  unfold frame_of. now rewrite length_app, frame_head_length, zfill_right_length.
Qed.

Lemma is_bit_bit_of (b : bool) : is_bit (bit_of b) = true.
Proof. now destruct b. Qed.

Lemma frame_grammar_intro (a b : char) (f32 f8 : pystr) :
  is_bit a = true -> is_bit b = true ->
  List.length f32 = 32%nat -> forallb is_bit f32 = true ->
  List.length f8 = 8%nat -> forallb is_bit f8 = true ->
  frame_grammar (a :: 95%N :: f32 ++ [95%N; b; 95%N] ++ f8) = true.
Proof.
  intros Ha Hb L32 B32 L8 B8. unfold frame_grammar.
  rewrite (firstn_exact _ _ _ _ L32), (skipn_exact _ _ _ _ L32).
  cbn [app]. rewrite Ha, Hb, L32, L8, B32, B8.
  reflexivity.
Qed.

Lemma frame_grammar_length (s : pystr) :
  frame_grammar s = true -> List.length s = 45%nat.
Proof.
  unfold frame_grammar.
  destruct s as [ | a [ | u1 rest]]; try discriminate.
  intro H. repeat (apply andb_prop in H; destruct H as [H ?]).
  destruct (skipn 32 rest) as [ | u2 [ | b [ | u3 tail]]] eqn:E; try discriminate.
  match goal with X : _ && _ = true |- _ =>
    repeat (apply andb_prop in X; destruct X as [X ?]) end.
  rewrite <- (firstn_skipn 32 rest), E.
  cbn [List.length]. rewrite length_app. cbn [List.length].
  repeat match goal with X : (_ =? _)%nat = true |- _ =>
    apply Nat.eqb_eq in X end.
  lia.
Qed.

Lemma digits_in_range_32 (size : Z) :
  (0 <= size < 2 ^ 32)%Z -> (List.length (digits size) <= 32)%nat.
Proof. intro H. apply digits_length_le; [exact H | lia]. Qed.

Lemma digits_in_range_8 (c : char) :
  (c < 256)%N -> (List.length (digits (Z.of_N c)) <= 8)%nat.
Proof.
  intro H. apply digits_length_le; [ | lia].
  change (2 ^ Z.of_nat 8)%Z with 256%Z. lia.
Qed.

Lemma size_field_frame_of (size_valid data_valid : bool) (size : Z) (c : char) :
  (List.length (digits size) <= 32)%nat ->
  size_field (frame_of size_valid size data_valid c) = zfill_right 32 (digits size).
Proof.
  intro H. unfold size_field, frame_of, frame_head.
  cbn [app skipn]. rewrite <- app_assoc. apply firstn_exact.
  rewrite zfill_right_length. lia.
Qed.

Lemma data_field_frame_of (size_valid data_valid : bool) (size : Z) (c : char) :
  (List.length (digits (Z.of_N c)) <= 8)%nat ->
  data_field (frame_of size_valid size data_valid c)
  = zfill_right 8 (digits (Z.of_N c)).
Proof.
  intro H. unfold data_field, frame_of. apply skipn_exact.
  rewrite length_app, zfill_right_length. lia.
Qed.

Lemma frame_of_grammar (size_valid data_valid : bool) (size : Z) (c : char) :
  (0 <= size < 2 ^ 32)%Z -> (c < 256)%N ->
  frame_grammar (frame_of size_valid size data_valid c) = true.
Proof.
  intros Hs Hc. unfold frame_of, frame_head. cbn [app]. rewrite <- app_assoc.
  apply frame_grammar_intro; try apply is_bit_bit_of.
  - rewrite zfill_right_length. pose proof (digits_in_range_32 _ Hs). lia.
  - apply zfill_right_bits, digits_bits. lia.
  - rewrite zfill_right_length. pose proof (digits_in_range_8 _ Hc). lia.
  - apply zfill_right_bits, digits_bits. lia.
Qed.

(** ** Cutting a string at a separator *)

Lemma split_cons_other (sep c : char) (s : pystr) :
  c <> sep -> exists l ls, split sep s = l :: ls /\ split sep (c :: s) = (c :: l) :: ls.
Proof.
  intro H. simpl. apply N.eqb_neq in H. rewrite H.
  destruct s as [ | d s]; simpl.
  - now exists [], [].
  - destruct (d =? sep)%N.
    + now exists [], (split sep s).
    + destruct (split sep s) as [ | l ls]; [now exists [d], [] | now exists (d :: l), ls].
Qed.

Lemma split_app_sep (sep : char) (a b : pystr) :
  ~ In sep a -> split sep (a ++ sep :: b) = a :: split sep b.
Proof.
  induction a as [ | c a IH]; intro H.
  - simpl. now rewrite N.eqb_refl.
  - assert (Hc : c <> sep) by (intro E; apply H; now left).
    assert (Ha : ~ In sep a) by (intro E; apply H; now right).
    destruct (split_cons_other sep c (a ++ sep :: b) Hc) as (l & ls & E1 & E2).
    rewrite <- app_comm_cons, E2. rewrite (IH Ha) in E1. now inversion E1.
Qed.

Lemma split_plain (sep : char) (a : pystr) : ~ In sep a -> split sep a = [a].
Proof.
  induction a as [ | c a IH]; intro H; trivial.
  assert (Hc : c <> sep) by (intro E; apply H; now left).
  assert (Ha : ~ In sep a) by (intro E; apply H; now right).
  destruct (split_cons_other sep c a Hc) as (l & ls & E1 & E2).
  rewrite E2. rewrite (IH Ha) in E1. now inversion E1.
Qed.

Lemma lines_app_newline (a rest : pystr) :
  ~ In 10%N a -> lines (a ++ 10%N :: rest) = a :: lines rest.
Proof.
  induction a as [ | c a IH]; intro H; trivial.
  assert (Hc : c <> 10%N) by (intro E; apply H; now left).
  assert (Ha : ~ In 10%N a) by (intro E; apply H; now right).
  rewrite <- app_comm_cons. cbn [lines].
  apply N.eqb_neq in Hc. rewrite Hc, (IH Ha). reflexivity.
Qed.

(** ** The characters of a frame *)

Lemma pos_digits_plain (p : positive) : Forall plain (pos_digits p []).
Proof.
  induction p as [q IH | q IH | ]; simpl.
  - rewrite pos_digits_acc. apply Forall_app. split; trivial.
    constructor; [split; discriminate | constructor].
  - rewrite pos_digits_acc. apply Forall_app. split; trivial.
    constructor; [split; discriminate | constructor].
  - constructor; [split; discriminate | constructor].
Qed.

Lemma digits_plain (n : Z) : Forall plain (digits n).
Proof.
  destruct n as [ | p | p].
  - constructor; [split; discriminate | constructor].
  - rewrite digits_pos. apply pos_digits_plain.
  - rewrite digits_neg. constructor; [split; discriminate | apply pos_digits_plain].
Qed.

Lemma zfill_right_plain (w : nat) (s : pystr) :
  Forall plain s -> Forall plain (zfill_right w s).
Proof.
  intro H. unfold zfill_right. apply Forall_app. split; trivial.
  induction (w - List.length s)%nat as [ | k IH]; simpl; constructor; trivial.
  split; discriminate.
Qed.

Lemma plain_bit_of (b : bool) : plain (bit_of b).
Proof. destruct b; split; discriminate. Qed.

Lemma plain_no_underscore (s : pystr) : Forall plain s -> ~ In 95%N s.
Proof.
  intros H E. rewrite Forall_forall in H. destruct (H _ E) as [H1 _]. now apply H1.
Qed.

Lemma plain_no_newline (s : pystr) : Forall plain s -> ~ In 10%N s.
Proof.
  intros H E. rewrite Forall_forall in H. destruct (H _ E) as [_ H1]. now apply H1.
Qed.

Lemma frame_of_unfold (size_valid data_valid : bool) (size : Z) (c : char) :
  frame_of size_valid size data_valid c
  = [bit_of size_valid] ++ 95%N :: zfill_right 32 (digits size)
      ++ 95%N :: [bit_of data_valid] ++ 95%N :: zfill_right 8 (digits (Z.of_N c)).
Proof.
  unfold frame_of, frame_head. cbn [app]. now rewrite <- app_assoc.
Qed.

Lemma read_frame_frame_of (size_valid data_valid : bool) (size : Z) (c : char) :
  read_frame (frame_of size_valid size data_valid c)
  = Some {| size_valid_bit := [bit_of size_valid];
            size_bits := zfill_right 32 (digits size);
            data_valid_bit := [bit_of data_valid];
            data_bits := zfill_right 8 (digits (Z.of_N c)) |}.
Proof.
  unfold read_frame. rewrite frame_of_unfold.
  assert (B : forall b, ~ In 95%N [bit_of b]).
  { intro b. apply plain_no_underscore. constructor; [apply plain_bit_of | constructor]. }
  assert (D : forall w n, ~ In 95%N (zfill_right w (digits n))).
  { intros w n. apply plain_no_underscore, zfill_right_plain, digits_plain. }
  rewrite (split_app_sep _ _ _ (B size_valid)), (split_app_sep _ _ _ (D _ size)).
  rewrite (split_app_sep _ _ _ (B data_valid)), (split_plain _ _ (D _ (Z.of_N c))).
  reflexivity.
Qed.

Lemma frame_of_no_newline (size_valid data_valid : bool) (size : Z) (c : char) :
  ~ In 10%N (frame_of size_valid size data_valid c).
Proof.
  pose proof (plain_no_newline _ (zfill_right_plain 32 _ (digits_plain size))) as H32.
  pose proof (plain_no_newline _
                (zfill_right_plain 8 _ (digits_plain (Z.of_N c)))) as H8.
  rewrite frame_of_unfold. intro H.
  repeat (rewrite in_app_iff in H || cbn [In] in H).
  destruct size_valid, data_valid; cbn [bit_of] in H;
    intuition discriminate.
Qed.

(** * The frame encoding *)

(** C3 (as stated, refuted): the frame of [size_valid = True], [size = 2],
    [data_valid = False], [data = "\0"] has 45 characters, not 44: the
    three underscores, the two flags and the fields of 32 and 8 digits. *)
Lemma generate_string_length_is_not_44 :
  exists s,
    generate_string true 2 false NUL = Ok s
    /\ s = py "1_00000000000000000000000000000010_0_00000000"
    /\ List.length s = 45%nat
    /\ List.length s <> 44%nat.
Proof.
  eexists. split; [reflexivity | ]. split; [reflexivity | ].
  split; [reflexivity | discriminate].
Qed.

(** C3 (amended): for every [size_valid], [data_valid], every [size] with
    [0 <= size < 2^32] and every ASCII character, [generate_string] returns
    a string of exactly 45 characters that matches
    [^[01]_[01]{32}_[01]_[01]{8}$]; its 32-character and 8-character fields
    are the binary digits of [size] and of the code point, complete, behind
    zeros only. *)
Theorem generate_string_fixed_width
  (size_valid : bool) (size : Z) (data_valid : bool) (c : char) :
  (0 <= size < 2 ^ 32)%Z -> (c < 128)%N ->
  exists s,
    generate_string size_valid size data_valid [c] = Ok s
    /\ List.length s = 45%nat
    /\ frame_grammar s = true
    /\ (exists k, size_field s = repeat 48%N k ++ from2 (bin size))
    /\ (exists k, data_field s = repeat 48%N k ++ from2 (bin (Z.of_N c))).
Proof.
  intros Hs Hc. exists (frame_of size_valid size data_valid c).
  assert (Hc' : (c < 256)%N) by lia.
  pose proof (digits_in_range_32 _ Hs) as L32.
  pose proof (digits_in_range_8 _ Hc') as L8.
  split; [apply generate_string_char | ].
  split; [rewrite frame_of_length; lia | ].
  split; [now apply frame_of_grammar | ].
  split.
  - rewrite size_field_frame_of by exact L32. now eexists.
  - rewrite data_field_frame_of by exact L8. now eexists.
Qed.

Lemma generate_string_fixed_width_witness :
  exists s,
    generate_string true 2 false [0%N] = Ok s
    /\ List.length s = 45%nat
    /\ frame_grammar s = true
    /\ (exists k, size_field s = repeat 48%N k ++ from2 (bin 2))
    /\ (exists k, data_field s = repeat 48%N k ++ from2 (bin (Z.of_N 0))).
Proof.
  apply (generate_string_fixed_width true 2 false 0%N); [lia | lia].
Defined.

(** C5: for every [size] with [0 <= size < 2^32], whatever the other
    inputs, characters 3 to 34 of the frame read as a big-endian binary
    numeral give [size] back. *)
Theorem size_field_decodes
  (size_valid : bool) (size : Z) (data_valid : bool) (c : char) :
  (0 <= size < 2 ^ 32)%Z ->
  exists s,
    generate_string size_valid size data_valid [c] = Ok s
    /\ int2 (size_field s) = Some size.
Proof.
  intro Hs. exists (frame_of size_valid size data_valid c).
  split; [apply generate_string_char | ].
  rewrite size_field_frame_of by now apply digits_in_range_32.
  apply int2_zfill. lia.
Qed.

Lemma size_field_decodes_witness :
  exists s,
    generate_string false 4294967295 true [955%N] = Ok s
    /\ int2 (size_field s) = Some 4294967295%Z.
Proof.
  apply (size_field_decodes false 4294967295 true 955%N). lia.
Defined.

(** C6: for every ASCII character, whatever the other inputs, the last 8
    characters of the frame read as a big-endian binary numeral give the
    code point of the character. *)
Theorem data_field_decodes
  (size_valid : bool) (size : Z) (data_valid : bool) (c : char) :
  (c < 128)%N ->
  exists s,
    generate_string size_valid size data_valid [c] = Ok s
    /\ int2 (data_field s) = Some (Z.of_N c).
Proof.
  intro Hc. exists (frame_of size_valid size data_valid c).
  split; [apply generate_string_char | ].
  rewrite data_field_frame_of by (apply digits_in_range_8; lia).
  apply int2_zfill. lia.
Qed.

Lemma data_field_decodes_witness :
  exists s,
    generate_string false 7 true [72%N] = Ok s
    /\ int2 (data_field s) = Some (Z.of_N 72).
Proof.
  apply (data_field_decodes false 7 true 72%N). lia.
Defined.

(** C10: for a character whose code point is 256 or more,
    [generate_string] checks nothing and returns a frame whose last field
    holds all the digits of the code point, more than 8 of them; the frame
    is longer than 44 characters and does not match the grammar. *)
Theorem wide_character_overflows
  (size_valid : bool) (size : Z) (data_valid : bool) (c : char) :
  (256 <= c)%N ->
  exists s f,
    generate_string size_valid size data_valid [c] = Ok s
    /\ read_frame s = Some f
    /\ data_bits f = from2 (bin (Z.of_N c))
    /\ (8 < List.length (data_bits f))%nat
    /\ (44 < List.length s)%nat
    /\ frame_grammar s = false.
Proof.
  intro Hc.
  assert (L : (8 < List.length (digits (Z.of_N c)))%nat).
  { destruct c as [ | p]; [lia | ].
    change (Z.of_N (N.pos p)) with (Zpos p).
    rewrite digits_pos, pos_digits_length. apply size_nat_lower.
    change (2 ^ Z.of_nat 8)%Z with 256%Z. lia. }
  assert (E : zfill_right 8 (digits (Z.of_N c)) = digits (Z.of_N c)).
  { unfold zfill_right.
    replace (8 - List.length (digits (Z.of_N c)))%nat with 0%nat by lia.
    reflexivity. }
  exists (frame_of size_valid size data_valid c). eexists.
  split; [apply generate_string_char | ].
  split; [apply read_frame_frame_of | ]. cbn [data_bits]. rewrite E.
  split; [reflexivity | ]. split; [exact L | ].
  assert (L45 : (45 < List.length (frame_of size_valid size data_valid c))%nat)
    by (rewrite frame_of_length; lia).
  split; [lia | ].
  destruct (frame_grammar (frame_of size_valid size data_valid c)) eqn:G; trivial.
  apply frame_grammar_length in G. lia.
Qed.

Lemma wide_character_overflows_witness :
  exists s f,
    generate_string true 2 false [256%N] = Ok s
    /\ read_frame s = Some f
    /\ data_bits f = from2 (bin (Z.of_N 256))
    /\ (8 < List.length (data_bits f))%nat
    /\ (44 < List.length s)%nat
    /\ frame_grammar s = false.
Proof.
  apply (wide_character_overflows true 2 false 256%N). lia.
Defined.

(** * The loops of generate_datafile *)

Lemma uniform_answer_not_below_0 (x : Q) :
  uniform_answer x = true -> Qltb x 0 = false.
Proof.
  unfold uniform_answer, Qltb. intro H. apply andb_prop in H.
  destruct H as [H _]. now rewrite H.
Qed.

Lemma uniform_answer_below_1 (x : Q) :
  uniform_answer x = true -> Qltb x 1 = true.
Proof.
  unfold uniform_answer. intro H. apply andb_prop in H. now destruct H.
Qed.

Lemma randint_answer_range (a b i : Z) :
  randint_answer a b i = true -> (a <= i <= b)%Z.
Proof. unfold randint_answer. lia. Qed.

(** Clears the cases of a loop: the calls of [generate_string] are on
    one-character strings and return. *)
Ltac loop_case :=
  unfold NUL, chr in *;
  repeat match goal with
    | H : generate_string _ _ _ [_] = _ |- _ =>
        rewrite generate_string_char in H;
        first [discriminate H | injection H as H; subst]
    | H : negb _ = true |- _ => apply negb_true_iff in H
    | H : negb _ = false |- _ => apply negb_false_iff in H
    end;
  cbn [fst snd wrote] in *.

Section Draws.

(** A property of the integers on the tape is inherited by the sizes the
    loops write. *)
Variable P : Z -> Prop.

Lemma size_loop_entries (data : pystr) (p : Q) (t : tape) :
  tape_sat P t ->
  exists ns,
    Forall (noise P) ns
    /\ match snd (size_loop data p t) with
       | Returned t1 =>
           fst (size_loop data p t) = map entry_line (ns ++ [terminal data])
           /\ tape_sat P t1
       | Starved | Refused => fst (size_loop data p t) = map entry_line ns
       | Raised _ => False
       end.
Proof.
  functional induction (size_loop data p t); intro Ht; loop_case;
    try (exists []; split; [constructor | ]; cbn; trivial; fail).
  - exists []. split; [constructor | ]. split; [reflexivity | ].
    now inversion Ht.
  - inversion Ht as [ | ? ? _ Ht1]; subst.
    inversion Ht1 as [ | ? ? Pi Ht2]; subst.
    match goal with
    | IHt : tape_sat P _ -> _ |- _ => destruct (IHt Ht2) as (ns & Hns & IH)
    end.
    exists ({| e_size_valid := false; e_size := i; e_data_valid := false;
               e_char := 0%N |} :: ns).
    split.
    + constructor; trivial.
      match goal with
      | R : randint_answer _ _ _ = true |- _ => apply randint_answer_range in R
      end.
      repeat split; cbn; trivial; lia.
    + destruct (snd (size_loop data p t2)); trivial.
      * destruct IH as [IH ?]. split; trivial. cbn [map app]. now rewrite IH.
      * cbn [map]. now rewrite IH.
      * cbn [map]. now rewrite IH.
Qed.

Lemma char_loop_entries (p : Q) (c : char) (t : tape) :
  tape_sat P t ->
  exists ns,
    Forall (noise P) ns
    /\ match snd (char_loop p [c] t) with
       | Returned t1 =>
           exists e,
             payload P c e
             /\ fst (char_loop p [c] t) = map entry_line (ns ++ [e])
             /\ tape_sat P t1
       | Starved | Refused => fst (char_loop p [c] t) = map entry_line ns
       | Raised _ => False
       end.
Proof.
  functional induction (char_loop p [c] t); intro Ht; loop_case;
    try (exists []; split; [constructor | ]; cbn; trivial; fail).
  - inversion Ht as [ | ? ? _ Ht1]; subst.
    inversion Ht1 as [ | ? ? Pi Ht2]; subst.
    match goal with
    | R : randint_answer _ _ _ = true |- _ => apply randint_answer_range in R
    end.
    exists []. split; [constructor | ].
    exists {| e_size_valid := false; e_size := i; e_data_valid := true;
              e_char := c |}.
    repeat split; cbn; trivial; lia.
  - inversion Ht as [ | ? ? _ Ht1]; subst.
    inversion Ht1 as [ | ? ? Pi Ht2]; subst.
    inversion Ht2 as [ | ? ? Pj Ht3]; subst.
    match goal with
    | IHt : tape_sat P _ -> _ |- _ => destruct (IHt Ht3) as (ns & Hns & IH)
    end.
    exists ({| e_size_valid := false; e_size := i; e_data_valid := false;
               e_char := Z.to_N j |} :: ns).
    split.
    + constructor; trivial.
      repeat match goal with
      | R : randint_answer _ _ _ = true |- _ => apply randint_answer_range in R
      end.
      repeat split; cbn; trivial; lia.
    + destruct (snd (char_loop p [c] t3)); trivial.
      * destruct IH as (e & He & IH & ?). exists e.
        repeat split; trivial; try apply He. cbn [map app]. now rewrite IH.
      * cbn [map]. now rewrite IH.
      * cbn [map]. now rewrite IH.
Qed.

(** The entries of the [for] loop: noise and, when the loop ends, one
    payload entry per character, in the order of [data]. *)
Lemma for_loop_entries (p : Q) (data : pystr) (t : tape) :
  tape_sat P t ->
  exists es,
    fst (for_loop p data t) = map entry_line es
    /\ Forall (fun e => noise P e \/ exists c, In c data /\ payload P c e) es
    /\ match snd (for_loop p data t) with
       | Returned t1 =>
           map e_char (filter e_data_valid es) = data /\ tape_sat P t1
       | Starved | Refused => True
       | Raised _ => False
       end.
Proof.
  revert t.
  induction data as [ | c data IH]; intros t Ht.
  - exists []. cbn. repeat split; trivial.
  - cbn [for_loop].
    destruct (char_loop_entries p c t Ht) as (ns & Hns & Hc).
    assert (Hns' : Forall (fun e => noise P e \/ exists d, In d (c :: data) /\ payload P d e) ns).
    { eapply Forall_impl; [ | exact Hns]. now left. }
    destruct (char_loop p [c] t) as [w o]. cbn [fst snd] in Hc.
    destruct o as [t1 | | | e]; cbn [fst snd].
    + destruct Hc as (e & He & Hw & Ht1).
      destruct (IH t1 Ht1) as (es & Hes & Hall & Hres).
      exists ((ns ++ [e]) ++ es). split; [now rewrite map_app, Hw, Hes | ].
      split.
      * apply Forall_app. split.
        -- apply Forall_app. split; trivial.
           constructor; [ | constructor]. right. exists c. split; [now left | exact He].
        -- eapply Forall_impl; [ | exact Hall].
           intros a [Ha | (d & Hd & Ha)]; [now left | ].
           right. exists d. split; [now right | exact Ha].
      * destruct (snd (for_loop p data t1)); trivial.
        destruct Hres as [Hres ?]. split; trivial.
        rewrite !filter_app, !map_app, Hres.
        assert (N0 : filter e_data_valid ns = []).
        { clear - Hns. induction Hns as [ | a ns Ha _ IHns]; trivial.
          cbn. destruct Ha as (_ & -> & _). exact IHns. }
        destruct He as (_ & Hd & Hch & _).
        rewrite N0. cbn [filter]. rewrite Hd. cbn. now rewrite Hch.
    + exists ns. repeat split; trivial.
    + exists ns. repeat split; trivial.
    + destruct Hc.
Qed.

End Draws.

(** * A run of generate_datafile *)

Lemma filter_none (A : Type) (f : A -> bool) (l : list A) :
  Forall (fun a => f a = false) l -> filter f l = [].
Proof.
  induction 1 as [ | a l Ha _ IH]; trivial. cbn. now rewrite Ha.
Qed.

Lemma run_entries (P : Z -> Prop) (filename data : pystr) (p : Q) (t : tape) :
  tape_sat P t ->
  exists es,
    effects (generate_datafile filename data p t)
    = opening filename data ++ map Write (map entry_line es)
        ++ closing (result (generate_datafile filename data p t))
    /\ Forall (fun e => noise P e \/ e = terminal data
                       \/ exists c, In c data /\ payload P c e) es
    /\ match result (generate_datafile filename data p t) with
       | Returned _ =>
           filter e_size_valid es = [terminal data]
           /\ map e_char (filter e_data_valid es) = data
       | Starved | Refused => True
       | Raised _ => False
       end.
Proof.
  intro Ht. unfold generate_datafile. fold (opening filename data).
  destruct (size_loop_entries P data p t Ht) as (ns & Hns & H1).
  assert (Hns' : Forall (fun e => noise P e \/ e = terminal data
                                  \/ exists c, In c data /\ payload P c e) ns).
  { eapply Forall_impl; [ | exact Hns]. now left. }
  destruct (size_loop data p t) as [w1 o1]. cbn [fst snd] in H1.
  destruct o1 as [t1 | | | e]; cbn [effects result].
  - destruct H1 as [H1 Ht1].
    destruct (for_loop_entries P p data t1 Ht1) as (es & H2 & Hes & Hres).
    exists ((ns ++ [terminal data]) ++ es).
    split; [cbn zeta; now rewrite H1, H2, <- map_app | ].
    split.
    + apply Forall_app. split.
      * apply Forall_app. split; trivial. constructor; [ | constructor].
        right. now left.
      * eapply Forall_impl; [ | exact Hes]. intros a [Ha | Ha]; [now left | ].
        right. now right.
    + destruct (snd (for_loop p data t1)); trivial.
      destruct Hres as [Hres _].
      assert (S1 : filter e_size_valid ns = []).
      { apply filter_none. eapply Forall_impl; [ | exact Hns].
        now intros a (Ha & _). }
      assert (D1 : filter e_data_valid ns = []).
      { apply filter_none. eapply Forall_impl; [ | exact Hns].
        now intros a (_ & Ha & _). }
      assert (S2 : filter e_size_valid es = []).
      { apply filter_none. eapply Forall_impl; [ | exact Hes].
        intros a [(Ha & _) | (c & _ & Ha & _)]; exact Ha. }
      rewrite !filter_app, S1, S2, D1. cbn. now rewrite Hres.
  - exists ns. now rewrite H1.
  - exists ns. now rewrite H1.
  - destruct H1.
Qed.

Lemma tape_sat_True (t : tape) : tape_sat (fun _ => True) t.
Proof. induction t as [ | [x | i] t IH]; constructor; trivial. Qed.

(** ** The text and the lines of the file *)

Lemma file_text_writes (es0 : list event) (ws : list pystr) (o : outcome) :
  flat_map (fun e => match e with Write s => s | _ => [] end)
    (es0 ++ map Write ws ++ closing o)
  = flat_map (fun e => match e with Write s => s | _ => [] end) es0 ++ List.concat ws.
Proof.
  rewrite !flat_map_app. f_equal.
  replace (flat_map (fun e => match e with Write s => s | _ => [] end) (closing o))
    with (@nil N) by now destruct o.
  rewrite app_nil_r. induction ws as [ | w ws IH]; cbn; trivial. now rewrite IH.
Qed.

Lemma lines_entries (es : list entry) :
  lines (List.concat (map entry_line es)) = map entry_frame es.
Proof.
  induction es as [ | e es IH]; trivial.
  cbn [map List.concat]. unfold entry_line at 1, NL. rewrite <- app_assoc.
  cbn [app]. rewrite lines_app_newline by apply frame_of_no_newline.
  now rewrite IH.
Qed.

Lemma lines_of_run (filename data : pystr) (es : list entry) (r : run) :
  ~ In 10%N data ->
  effects r = opening filename data ++ map Write (map entry_line es)
                ++ closing (result r) ->
  lines (file_text r) = (py "# " ++ data) :: map entry_frame es.
Proof.
  intros Hd E. unfold file_text. rewrite E, file_text_writes.
  cbn [opening flat_map app]. rewrite app_nil_r.
  change (py "# " ++ data ++ NL) with (35%N :: 32%N :: data ++ NL).
  unfold NL. cbn [app]. rewrite <- app_assoc. cbn [app].
  change (py "# " ++ data) with (35%N :: 32%N :: data).
  rewrite <- lines_entries.
  change (35%N :: 32%N :: data ++ 10%N :: List.concat (map entry_line es))
    with ((35%N :: 32%N :: data) ++ 10%N :: List.concat (map entry_line es)).
  apply lines_app_newline. intros [E1 | [E1 | E1]]; try discriminate. now apply Hd.
Qed.

(** ** Trials that succeed at once *)

Lemma size_loop_first_trial (data : pystr) (p x : Q) (t1 : tape) :
  uniform_answer x = true -> Qltb x p = true ->
  size_loop data p (Uniform x :: t1) = ([entry_line (terminal data)], Returned t1).
Proof.
  intros Hx Hp. cbn [size_loop]. rewrite Hx, Hp. cbn [negb].
  unfold NUL. now rewrite generate_string_char.
Qed.

Lemma char_loop_first_trial (p x : Q) (c : char) (i : Z) (t2 : tape) :
  uniform_answer x = true -> Qltb x p = true ->
  randint_answer 0 (2 ^ 32) i = true ->
  char_loop p [c] (Uniform x :: Randint i :: t2)
  = ([frame_of false i true c ++ NL], Returned t2).
Proof.
  intros Hx Hp Hi. cbn [char_loop]. rewrite Hx, Hp, Hi. cbn [negb].
  now rewrite generate_string_char.
Qed.

Lemma for_loop_first_trials (p : Q) (data : pystr) (draws : list (Q * Z)) (t : tape) :
  Forall (good_trial p) draws -> List.length draws = List.length data ->
  for_loop p data (trial_draws draws ++ t)
  = (map payload_line (combine data draws), Returned t).
Proof.
  revert draws.
  induction data as [ | c data IH]; intros [ | [x i] draws] Hd Hl;
    try discriminate; trivial.
  inversion Hd as [ | ? ? (Hx & Hp & Hi) Hd']; subst. cbn [fst snd] in *.
  cbn [for_loop trial_draws flat_map fst snd app].
  rewrite (char_loop_first_trial p x c i _ Hx Hp Hi).
  fold (trial_draws draws). rewrite IH by (trivial; now injection Hl).
  reflexivity.
Qed.

Lemma datafile_first_trials
  (filename data : pystr) (p x0 : Q) (draws : list (Q * Z)) :
  uniform_answer x0 = true -> Qltb x0 p = true ->
  Forall (good_trial p) draws -> List.length draws = List.length data ->
  generate_datafile filename data p (Uniform x0 :: trial_draws draws)
  = {| effects :=
         opening filename data
           ++ map Write (entry_line (terminal data)
                           :: map payload_line (combine data draws))
           ++ [Close];
       result := Returned [] |}.
Proof.
  intros Hx Hp Hd Hl. unfold generate_datafile.
  rewrite (size_loop_first_trial data p x0 _ Hx Hp).
  rewrite <- (app_nil_r (trial_draws draws)).
  rewrite (for_loop_first_trials p data draws [] Hd Hl).
  reflexivity.
Qed.

Lemma Qltb_0_pos (p : Q) : (0 < p)%Q -> Qltb 0 p = true.
Proof.
  intro H. unfold Qltb. destruct (Qle_bool p 0) eqn:E; trivial.
  apply Qle_bool_iff in E. now apply Qlt_not_le in H.
Qed.

Lemma datafile_can_return (filename data : pystr) (p : Q) :
  (0 < p)%Q ->
  result (generate_datafile filename data p
            (Uniform 0 :: trial_draws (map (fun _ => (0%Q, 0%Z)) data)))
  = Returned [].
Proof.
  intro Hp. rewrite datafile_first_trials; trivial.
  - now apply Qltb_0_pos.
  - apply Forall_forall. intros d Hd. apply in_map_iff in Hd.
    destruct Hd as (c & <- & _). repeat split. now apply Qltb_0_pos.
  - apply length_map.
Qed.

(** ** Reading the entries back *)

Lemma read_entry_frames (es : list entry) :
  map read_frame (map entry_frame es) = map Some (map fields_of es).
Proof.
  rewrite !map_map. apply map_ext. intro e. apply read_frame_frame_of.
Qed.

Lemma is_one_bit_of (b : bool) : is_one [bit_of b] = b.
Proof. now destruct b. Qed.

Lemma filter_size_valid (es : list entry) :
  filter (fun f => is_one (size_valid_bit f)) (map fields_of es)
  = map fields_of (filter e_size_valid es).
Proof.
  induction es as [ | e es IH]; trivial.
  cbn [map filter fields_of size_valid_bit]. rewrite is_one_bit_of, IH.
  now destruct (e_size_valid e).
Qed.

Lemma filter_data_valid (es : list entry) :
  filter (fun f => is_one (data_valid_bit f)) (map fields_of es)
  = map fields_of (filter e_data_valid es).
Proof.
  induction es as [ | e es IH]; trivial.
  cbn [map filter fields_of data_valid_bit]. rewrite is_one_bit_of, IH.
  now destruct (e_data_valid e).
Qed.

Lemma entry_frame_not_comment (es : list entry) :
  filter is_comment (map entry_frame es) = [].
Proof.
  apply filter_none, Forall_forall. intros l Hl. apply in_map_iff in Hl.
  destruct Hl as (e & <- & _). unfold entry_frame, frame_of, frame_head.
  now destruct (e_size_valid e).
Qed.

(** * The generated file *)

(** C1 (as stated, refuted): for [data = "\n#"] every run that returns
    leaves a file with two comment lines, ["# "] and ["#"], and neither is
    ["# "] followed by [data]. *)
Lemma newline_in_data_breaks_comment :
  let r := generate_datafile (py "out.txt") [10%N; 35%N] 1
             [Uniform 0; Uniform 0; Randint 0; Uniform 0; Randint 0] in
  result r = Returned []
  /\ filter is_comment (lines (file_text r)) = [py "# "; py "#"]
  /\ hd [] (lines (file_text r)) <> py "# " ++ [10%N; 35%N].
Proof.
  cbv zeta. split; [reflexivity | ]. split; [reflexivity | ].
  vm_compute. discriminate.
Qed.

(** C1 (amended): for every [data] without a line feed and every
    [random_value_chance] in (0, 1], runs that return exist, and every run
    that returns leaves a file whose first line, and only comment line, is
    ["# "] followed by [data]; every other line is a frame; exactly one
    frame has its size_valid flag up and its size field reads [len(data)];
    the frames with the data_valid flag up are as many as the characters
    and their data fields, in file order, read as the code points of
    [data].  The size field is 32 characters wide when [len(data) < 2^32]
    and the data fields 8 characters wide when the code points are below
    256. *)
Theorem datafile_reads_back (filename data : pystr) (random_value_chance : Q) :
  ~ In 10%N data ->
  (0 < random_value_chance)%Q /\ (random_value_chance <= 1)%Q ->
  (exists t,
      result (generate_datafile filename data random_value_chance t) = Returned [])
  /\ forall t rest,
      result (generate_datafile filename data random_value_chance t) = Returned rest ->
      let ls := lines (file_text (generate_datafile filename data random_value_chance t)) in
      exists fs,
        hd [] ls = py "# " ++ data
        /\ filter is_comment ls = [py "# " ++ data]
        /\ map read_frame (tl ls) = map Some fs
        /\ (exists f,
              filter (fun f => is_one (size_valid_bit f)) fs = [f]
              /\ int2 (size_bits f) = Some (len data)
              /\ ((len data < 2 ^ 32)%Z -> List.length (size_bits f) = 32%nat))
        /\ map (fun f => int2 (data_bits f))
             (filter (fun f => is_one (data_valid_bit f)) fs)
           = map (fun c => Some (Z.of_N c)) data
        /\ List.length (filter (fun f => is_one (data_valid_bit f)) fs)
           = List.length data
        /\ ((forall c, In c data -> (c < 256)%N) ->
            Forall (fun f => List.length (data_bits f) = 8%nat)
              (filter (fun f => is_one (data_valid_bit f)) fs)).
Proof.
  intros Hnl [Hp _]. split.
  { eexists. now apply datafile_can_return. }
  intros t rest Hr ls. subst ls.
  destruct (run_entries (fun _ => True) filename data random_value_chance t
              (tape_sat_True t)) as (es & E & Hes & Hres).
  rewrite Hr in Hres. destruct Hres as [Hsv Hdv].
  rewrite (lines_of_run filename data es _ Hnl E).
  exists (map fields_of es). cbn [hd tl].
  split; [reflexivity | ].
  split.
  { change (filter is_comment ((py "# " ++ data) :: map entry_frame es))
      with ((py "# " ++ data) :: filter is_comment (map entry_frame es)).
    now rewrite entry_frame_not_comment. }
  split; [apply read_entry_frames | ].
  rewrite filter_size_valid, filter_data_valid, Hsv.
  assert (Hlen : (0 <= len data)%Z) by (unfold len; lia).
  split.
  { exists (fields_of (terminal data)). split; [reflexivity | ].
    cbn [fields_of size_bits terminal e_size].
    split; [now apply int2_zfill | ].
    intro Hn. rewrite zfill_right_length.
    pose proof (digits_in_range_32 (len data) (conj Hlen Hn)). lia. }
  split.
  { rewrite <- Hdv, !map_map. apply map_ext. intro e.
    cbn [fields_of data_bits]. apply int2_zfill. lia. }
  split.
  { now rewrite length_map, <- Hdv, length_map. }
  intro H256. apply Forall_forall. intros f Hf. apply in_map_iff in Hf.
  destruct Hf as (e & <- & He). cbn [fields_of data_bits].
  assert (Hc : In (e_char e) data).
  { rewrite <- Hdv. now apply in_map. }
  rewrite zfill_right_length.
  pose proof (digits_in_range_8 _ (H256 _ Hc)). lia.
Qed.

Lemma datafile_reads_back_witness :
  let data := py "Hi" in
  let filename := py "out.txt" in
  (exists t, result (generate_datafile filename data (1 # 4) t) = Returned [])
  /\ forall t rest,
      result (generate_datafile filename data (1 # 4) t) = Returned rest ->
      let ls := lines (file_text (generate_datafile filename data (1 # 4) t)) in
      exists fs,
        hd [] ls = py "# " ++ data
        /\ filter is_comment ls = [py "# " ++ data]
        /\ map read_frame (tl ls) = map Some fs
        /\ (exists f,
              filter (fun f => is_one (size_valid_bit f)) fs = [f]
              /\ int2 (size_bits f) = Some (len data)
              /\ ((len data < 2 ^ 32)%Z -> List.length (size_bits f) = 32%nat))
        /\ map (fun f => int2 (data_bits f))
             (filter (fun f => is_one (data_valid_bit f)) fs)
           = map (fun c => Some (Z.of_N c)) data
        /\ List.length (filter (fun f => is_one (data_valid_bit f)) fs)
           = List.length data
        /\ ((forall c, In c data -> (c < 256)%N) ->
            Forall (fun f => List.length (data_bits f) = 8%nat)
              (filter (fun f => is_one (data_valid_bit f)) fs)).
Proof.
  apply (datafile_reads_back (py "out.txt") (py "Hi") (1 # 4)).
  - cbn. intuition discriminate.
  - split; reflexivity || discriminate.
Defined.

(** ** Which frame a line is *)

Lemma frame_line_frame_of (size_valid : bool) (size : Z) (data_valid : bool) (c : char) :
  frame_line size_valid size data_valid c
  = frame_of size_valid size data_valid c ++ NL.
Proof. unfold frame_line. now rewrite generate_string_char. Qed.

(** The flags of a written line are determined by the line. *)
Lemma frame_line_flags (sv sv' dv dv' : bool) (i i' : Z) (c c' : char) :
  frame_line sv i dv c = frame_line sv' i' dv' c' -> sv = sv' /\ dv = dv'.
Proof.
  rewrite !frame_line_frame_of. intro E. apply app_inv_tail in E.
  apply (f_equal read_frame) in E. rewrite !read_frame_frame_of in E.
  injection E as E1 _ E2 _. destruct sv, sv', dv, dv'; (discriminate || now split).
Qed.

(** ** Chance 0: the first loop never ends *)

Lemma size_loop_at_0 (data : pystr) (t : tape) :
  exists sizes,
    fst (size_loop data 0 t) = map (fun i => frame_line false i false 0%N) sizes
    /\ (snd (size_loop data 0 t) = Starved \/ snd (size_loop data 0 t) = Refused).
Proof.
  functional induction (size_loop data 0 t); loop_case;
    try (exists []; split; [reflexivity | ]; (now left) || (now right)).
  - match goal with
    | U : uniform_answer _ = true, L : Qltb _ 0 = true |- _ =>
        rewrite (uniform_answer_not_below_0 _ U) in L; discriminate L
    end.
  - match goal with
    | IHt : exists _, _ |- _ => destruct IHt as (sizes & E & O)
    end.
    exists (i :: sizes). split; trivial.
    cbn [map]. now rewrite frame_line_frame_of, E.
Qed.

Lemma size_loop_keeps_drawing (data : pystr) (draws : list (Q * Z)) :
  Forall good_draw draws ->
  size_loop data 0 (trial_draws draws)
  = (map (fun d => frame_line false (snd d) false 0%N) draws, Starved).
Proof.
  induction 1 as [ | [x i] draws [Hx Hi] _ IH]; trivial.
  cbn [fst snd] in Hx, Hi.
  cbn [trial_draws flat_map app fst snd size_loop].
  rewrite Hx, (uniform_answer_not_below_0 _ Hx), Hi. cbn [negb].
  unfold NUL. rewrite generate_string_char.
  fold (trial_draws draws). rewrite IH. cbn [wrote fst snd map].
  now rewrite frame_line_frame_of.
Qed.

(** C7: with [random_value_chance = 0] no run returns.  On every tape the
    run is still in its first loop when the draws are used up (or the tape
    holds a value the [random] module cannot return), and all it has
    written behind the comment are noise frames; on the answers of as many
    trials as one likes the run consumes them all, writes one noise frame
    for each, and asks for more. *)
Theorem zero_chance_never_returns (filename data : pystr) :
  (forall t,
      let r := generate_datafile filename data 0 t in
      (result r = Starved \/ result r = Refused)
      /\ exists sizes,
          effects r
          = opening filename data
              ++ map (fun i => Write (frame_line false i false 0%N)) sizes)
  /\ (forall draws,
        Forall good_draw draws ->
        let r := generate_datafile filename data 0 (trial_draws draws) in
        result r = Starved
        /\ effects r
           = opening filename data
               ++ map (fun d => Write (frame_line false (snd d) false 0%N)) draws).
Proof.
  split.
  - intros t r. subst r. unfold generate_datafile. fold (opening filename data).
    destruct (size_loop_at_0 data t) as (sizes & E & O).
    destruct (size_loop data 0 t) as [w o]. cbn [fst snd] in E, O.
    destruct O as [-> | ->]; cbn [effects result closing];
      (split; [(now left) || (now right) | ]);
      exists sizes; now rewrite E, map_map, app_nil_r.
  - intros draws Hd r. subst r. unfold generate_datafile.
    fold (opening filename data).
    rewrite (size_loop_keeps_drawing data draws Hd).
    cbn [effects result closing]. now rewrite map_map, app_nil_r.
Qed.

Lemma zero_chance_never_returns_witness :
  let filename := py "out.txt" in
  let data := py "Hi" in
  let draws := [((1 # 2)%Q, 5%Z); (0%Q, 4294967296%Z); ((3 # 4)%Q, 0%Z)] in
  let r := generate_datafile filename data 0 (trial_draws draws) in
  result r = Starved
  /\ effects r
     = opening filename data
         ++ map (fun d => Write (frame_line false (snd d) false 0%N)) draws.
Proof.
  apply (proj2 (zero_chance_never_returns (py "out.txt") (py "Hi"))).
  repeat constructor.
Defined.

(** ** Chance 1: every trial succeeds at once *)

Lemma size_loop_at_1 (data : pystr) (t : tape) :
  fst (size_loop data 1 t) = []
  \/ fst (size_loop data 1 t) = [frame_line true (len data) false 0%N].
Proof.
  destruct t as [ | [x | i] t1]; cbn [size_loop fst]; try now left.
  destruct (uniform_answer x) eqn:Hx; cbn [negb fst]; [ | now left].
  rewrite (uniform_answer_below_1 _ Hx). unfold NUL.
  rewrite generate_string_char, frame_line_frame_of. now right.
Qed.

Lemma char_loop_at_1 (c : char) (t : tape) :
  fst (char_loop 1 [c] t) = []
  \/ exists i, fst (char_loop 1 [c] t) = [frame_line false i true c].
Proof.
  destruct t as [ | [x | i] t1]; cbn [char_loop fst]; try now left.
  destruct (uniform_answer x) eqn:Hx; cbn [negb fst]; [ | now left].
  rewrite (uniform_answer_below_1 _ Hx).
  destruct t1 as [ | [y | i] t2]; cbn [fst]; try now left.
  destruct (randint_answer 0 (2 ^ 32) i); cbn [negb fst]; [ | now left].
  rewrite generate_string_char. right. exists i. now rewrite frame_line_frame_of.
Qed.

Lemma for_loop_at_1 (data : pystr) (t : tape) :
  Forall (fun w => exists i c, In c data /\ w = frame_line false i true c)
    (fst (for_loop 1 data t)).
Proof.
  revert t. induction data as [ | c data IH]; intro t; [constructor | ].
  cbn [for_loop]. pose proof (char_loop_at_1 c t) as Hc.
  destruct (char_loop 1 [c] t) as [w o]. cbn [fst] in Hc.
  assert (Hw : Forall (fun w => exists i d, In d (c :: data)
                                          /\ w = frame_line false i true d) w).
  { destruct Hc as [-> | (i & ->)]; constructor; [ | constructor].
    exists i, c. split; [now left | reflexivity]. }
  destruct o; cbn [fst]; trivial.
  apply Forall_app. split; trivial.
  eapply Forall_impl; [ | apply IH]. intros a (i & d & Hd & ->).
  exists i, d. split; [now right | reflexivity].
Qed.

Lemma in_writes (filename data : pystr) (ws : list pystr) (o : outcome) (w : pystr) :
  In (Write w) (opening filename data ++ map Write ws ++ closing o) ->
  w = py "# " ++ data ++ NL \/ In w ws.
Proof.
  intro H. apply in_app_or in H. destruct H as [H | H].
  - left. cbn in H. destruct H as [E | [E | [E | E]]];
      try discriminate E; [now injection E | destruct E].
  - right. apply in_app_or in H. destruct H as [H | H].
    + apply in_map_iff in H. destruct H as (v & E & Hv). now injection E as ->.
    + destruct o; cbn in H; intuition discriminate.
Qed.

Lemma writes_at_1 (filename data : pystr) (t : tape) (w : pystr) :
  In (Write w) (effects (generate_datafile filename data 1 t)) ->
  w = py "# " ++ data ++ NL
  \/ w = frame_line true (len data) false 0%N
  \/ exists i c, In c data /\ w = frame_line false i true c.
Proof.
  unfold generate_datafile. fold (opening filename data).
  pose proof (size_loop_at_1 data t) as H1.
  destruct (size_loop data 1 t) as [w1 o1]. cbn [fst] in H1.
  assert (In1 : In w w1 -> w = frame_line true (len data) false 0%N).
  { destruct H1 as [-> | ->]; cbn; intros H; [destruct H | ].
    destruct H as [E | E]; [now symmetry | destruct E]. }
  destruct o1 as [t1 | | | e]; cbn [effects]; intro H;
    apply in_writes in H; destruct H as [H | H]; try (now left);
    try (right; left; now apply In1).
  apply in_app_or in H. destruct H as [H | H]; [right; left; now apply In1 | ].
  right. right. pose proof (for_loop_at_1 data t1) as F.
  rewrite Forall_forall in F. exact (F _ H).
Qed.

(** C8: with [random_value_chance = 1.0] no noise frame is ever written,
    on any tape; and on the draws of a run (a float in [0, 1) for each
    loop, a size for each character) every loop succeeds on its first
    trial: the run returns and what it wrote is the comment line, the
    terminal size frame and one data frame for each character. *)
Theorem certain_chance_no_noise (filename data : pystr) :
  (forall t w size c,
      In (Write w) (effects (generate_datafile filename data 1 t)) ->
      w <> frame_line false size false c)
  /\ (forall x0 draws,
        uniform_answer x0 = true ->
        Forall good_draw draws ->
        List.length draws = List.length data ->
        generate_datafile filename data 1 (Uniform x0 :: trial_draws draws)
        = {| effects :=
               opening filename data
                 ++ Write (frame_line true (len data) false 0%N)
                 :: map (fun cd => Write (frame_line false (snd (snd cd)) true (fst cd)))
                      (combine data draws)
                 ++ [Close];
             result := Returned [] |}).
Proof.
  split.
  - intros t w size c H E. apply writes_at_1 in H.
    destruct H as [-> | [-> | (i & d & _ & ->)]].
    + rewrite frame_line_frame_of in E. discriminate E.
    + apply frame_line_flags in E. destruct E as [E _]. discriminate E.
    + apply frame_line_flags in E. destruct E as [_ E]. discriminate E.
  - intros x0 draws Hx Hd Hl.
    rewrite datafile_first_trials; trivial.
    + f_equal. f_equal. cbn [map]. unfold entry_line, terminal. cbn [e_size_valid
        e_size e_data_valid e_char]. rewrite frame_line_frame_of. cbn [app].
      f_equal. f_equal. rewrite map_map. apply map_ext. intro cd.
      now rewrite frame_line_frame_of.
    + now apply uniform_answer_below_1.
    + eapply Forall_impl; [ | exact Hd]. intros d [H1 H2].
      repeat split; trivial. now apply uniform_answer_below_1.
Qed.

Lemma certain_chance_no_noise_witness :
  generate_datafile (py "out.txt") (py "Hi") 1
    (Uniform 0 :: trial_draws [((1 # 2)%Q, 5%Z); ((3 # 4)%Q, 4294967296%Z)])
  = {| effects :=
         opening (py "out.txt") (py "Hi")
           ++ Write (frame_line true (len (py "Hi")) false 0%N)
           :: map (fun cd => Write (frame_line false (snd (snd cd)) true (fst cd)))
                (combine (py "Hi") [((1 # 2)%Q, 5%Z); ((3 # 4)%Q, 4294967296%Z)])
           ++ [Close];
       result := Returned [] |}.
Proof.
  apply (proj2 (certain_chance_no_noise (py "out.txt") (py "Hi"))).
  - reflexivity.
  - repeat constructor.
  - reflexivity.
Defined.

(** ** The scenario ["Hi"] *)

(** C4 (as stated, refuted): with [data = "Hi"] and chance 1.0, when
    [rand.randint] answers 5 and 7 for the sizes of the two data frames,
    lines 3 and 4 carry those sizes and are not the lines of the claim. *)
Lemma hi_lines_depend_on_draws :
  let r := generate_datafile (py "out.txt") (py "Hi") 1
             [Uniform 0; Uniform 0; Randint 5; Uniform 0; Randint 7] in
  result r = Returned []
  /\ lines (file_text r)
     = [ py "# Hi";
         py "1_00000000000000000000000000000010_0_00000000";
         py "0_00000000000000000000000000000101_1_01001000";
         py "0_00000000000000000000000000000111_1_01101001" ]
  /\ lines (file_text r)
     <> [ py "# Hi";
          py "1_00000000000000000000000000000010_0_00000000";
          py "0_00000000000000000000000000000000_1_01001000";
          py "0_00000000000000000000000000000000_1_01101001" ].
Proof.
  cbv zeta. split; [reflexivity | ]. split; [reflexivity | ].
  vm_compute. discriminate.
Qed.

(** C4 (amended): with [data = "Hi"] and chance 1.0 every run returns
    after five draws and the file has exactly four lines: ["# Hi"], the
    size frame of 2, and the data frames of ['H'] and ['i'], whose size
    fields are the 32-digit binary numerals of the two sizes drawn (taken
    below 2^32). *)
Theorem hi_certain_chance (filename : pystr) (x0 x1 x2 : Q) (i1 i2 : Z) :
  uniform_answer x0 = true -> uniform_answer x1 = true -> uniform_answer x2 = true ->
  (0 <= i1 < 2 ^ 32)%Z -> (0 <= i2 < 2 ^ 32)%Z ->
  let r := generate_datafile filename (py "Hi") 1
             [Uniform x0; Uniform x1; Randint i1; Uniform x2; Randint i2] in
  result r = Returned []
  /\ exists f1 f2,
      lines (file_text r)
      = [ py "# Hi";
          py "1_00000000000000000000000000000010_0_00000000";
          py "0_" ++ f1 ++ py "_1_01001000";
          py "0_" ++ f2 ++ py "_1_01101001" ]
      /\ List.length f1 = 32%nat /\ forallb is_bit f1 = true /\ int2 f1 = Some i1
      /\ List.length f2 = 32%nat /\ forallb is_bit f2 = true /\ int2 f2 = Some i2.
Proof.
  intros H0 H1 H2 R1 R2 r. subst r.
  assert (Hd : Forall (good_trial 1) [(x1, i1); (x2, i2)]).
  { repeat constructor; cbn [fst snd]; trivial;
      try (now apply uniform_answer_below_1); unfold randint_answer; lia. }
  pose proof (datafile_first_trials filename (py "Hi") 1 x0 [(x1, i1); (x2, i2)]
                H0 (uniform_answer_below_1 _ H0) Hd eq_refl) as E.
  cbn [trial_draws flat_map fst snd app] in E. rewrite E. clear E.
  split; [reflexivity | ].
  exists (zfill_right 32 (digits i1)), (zfill_right 32 (digits i2)).
  split.
  - rewrite (lines_of_run filename (py "Hi")
               [ terminal (py "Hi");
                 {| e_size_valid := false; e_size := i1; e_data_valid := true;
                    e_char := 72%N |};
                 {| e_size_valid := false; e_size := i2; e_data_valid := true;
                    e_char := 105%N |} ]).
    + cbn [map]. unfold entry_frame. rewrite !frame_of_unfold. reflexivity.
    + cbn. intuition discriminate.
    + reflexivity.
  - rewrite !zfill_right_length.
    pose proof (digits_in_range_32 _ R1). pose proof (digits_in_range_32 _ R2).
    repeat split; try lia;
      try (apply zfill_right_bits, digits_bits; lia);
      apply int2_zfill; lia.
Qed.

Lemma hi_certain_chance_witness :
  let r := generate_datafile (py "out.txt") (py "Hi") 1
             [Uniform 0; Uniform (1 # 2); Randint 0; Uniform (3 # 4); Randint 4294967295] in
  result r = Returned []
  /\ exists f1 f2,
      lines (file_text r)
      = [ py "# Hi";
          py "1_00000000000000000000000000000010_0_00000000";
          py "0_" ++ f1 ++ py "_1_01001000";
          py "0_" ++ f2 ++ py "_1_01101001" ]
      /\ List.length f1 = 32%nat /\ forallb is_bit f1 = true /\ int2 f1 = Some 0%Z
      /\ List.length f2 = 32%nat /\ forallb is_bit f2 = true
      /\ int2 f2 = Some 4294967295%Z.
Proof.
  apply (hi_certain_chance (py "out.txt") 0 (1 # 2) (3 # 4) 0 4294967295);
    try reflexivity; lia.
Defined.

(** With both sizes drawn as 0 the file is the one of the scenario. *)
Example hi_with_zero_sizes :
  lines (file_text (generate_datafile (py "out.txt") (py "Hi") 1
                      [Uniform 0; Uniform 0; Randint 0; Uniform 0; Randint 0]))
  = [ py "# Hi";
      py "1_00000000000000000000000000000010_0_00000000";
      py "0_00000000000000000000000000000000_1_01001000";
      py "0_00000000000000000000000000000000_1_01101001" ].
Proof. reflexivity. Qed.

(** * The entry point *)

(** C9: when [argv] has no element at index 1 the program raises
    [IndexError] at [sys.argv[1]]; nothing was printed, no file was opened
    or written, and nothing catches the exception. *)
Theorem main_without_argument
  (ascii_repr lower : pystr -> pystr) (argv : list pystr) (t : tape) :
  nth_error argv 1 = None ->
  main ascii_repr lower argv t = {| effects := []; result := Raised IndexError |}.
Proof. intro H. unfold main. now rewrite H. Qed.

Lemma main_without_argument_witness :
  main (fun s => s) (fun s => s) [py "data_generation.py"] [Uniform 0]
  = {| effects := []; result := Raised IndexError |}.
Proof.
  apply (main_without_argument (fun s => s) (fun s => s) [py "data_generation.py"]).
  reflexivity.
Defined.

(** * The lines of the file are frames *)

(** C2 (as stated, refuted): in the file of the scenario ["Hi"] the three
    lines behind the comment have 45 characters each, not 44. *)
Lemma frame_lines_have_45_characters :
  let ls := tl (lines (file_text
                  (generate_datafile (py "out.txt") (py "Hi") 1
                     [Uniform 0; Uniform 0; Randint 0; Uniform 0; Randint 0]))) in
  ls = [ py "1_00000000000000000000000000000010_0_00000000";
         py "0_00000000000000000000000000000000_1_01001000";
         py "0_00000000000000000000000000000000_1_01101001" ]
  /\ Forall (fun l => frame_grammar l = true /\ List.length l = 45%nat
                      /\ List.length l <> 44%nat) ls.
Proof.
  cbv zeta. split; [reflexivity | ].
  repeat constructor; discriminate.
Qed.

(** The sizes the loops draw with [rand.randint(0, 2**32)] include [2**32]
    itself, whose 33 digits do not fit the field: the line has 46
    characters and is no frame. *)
Lemma randint_upper_end_overflows :
  let r := generate_datafile (py "out.txt") (py "A") (1 # 4)
             [Uniform (1 # 2); Randint 4294967296; Uniform 0;
              Uniform 0; Randint 3] in
  result r = Returned []
  /\ lines (file_text r)
     = [ py "# A";
         py "0_100000000000000000000000000000000_0_00000000";
         py "1_00000000000000000000000000000001_0_00000000";
         py "0_00000000000000000000000000000011_1_01000001" ]
  /\ map (@List.length N) (lines (file_text r)) = [3; 46; 45; 45]%nat
  /\ map frame_grammar (lines (file_text r)) = [false; false; true; true].
Proof. cbv zeta. repeat split; reflexivity. Qed.

(** C2 (amended): for every [data] without a line feed, with code points
    below 256 and fewer than 2^32 characters, every chance and every tape
    whose integers are below 2^32, every line behind the comment line, in
    a finished file or in one still being written, is a frame of exactly
    45 characters that matches [^[01]_[01]{32}_[01]_[01]{8}$]. *)
Theorem every_line_is_a_frame
  (filename data : pystr) (random_value_chance : Q) (t : tape) :
  ~ In 10%N data ->
  (forall c, In c data -> (c < 256)%N) ->
  (len data < 2 ^ 32)%Z ->
  tape_sat (fun i => (i < 2 ^ 32)%Z) t ->
  Forall (fun l => List.length l = 45%nat /\ frame_grammar l = true)
    (tl (lines (file_text (generate_datafile filename data random_value_chance t)))).
Proof.
  intros Hnl H256 Hlen Ht.
  destruct (run_entries (fun i => (i < 2 ^ 32)%Z) filename data random_value_chance t Ht)
    as (es & E & Hes & _).
  rewrite (lines_of_run filename data es _ Hnl E). cbn [tl].
  apply Forall_forall. intros l Hl. apply in_map_iff in Hl.
  destruct Hl as (e & <- & He). rewrite Forall_forall in Hes.
  assert (G : frame_grammar (entry_frame e) = true).
  { unfold entry_frame.
    destruct (Hes e He) as [(_ & _ & Hc & Hp & H0) | [-> | (c & Hc & _ & _ & Hch & Hp & H0)]].
    - apply frame_of_grammar; [lia | lia].
    - apply frame_of_grammar; cbn [terminal e_size e_char]; [unfold len in *| ]; lia.
    - apply frame_of_grammar; [lia | ]. rewrite Hch. now apply H256. }
  split; [now apply frame_grammar_length | exact G].
Qed.

Lemma every_line_is_a_frame_witness :
  Forall (fun l => List.length l = 45%nat /\ frame_grammar l = true)
    (tl (lines (file_text
                  (generate_datafile (py "out.txt") (py "Hi") (1 # 4)
                     [Uniform (1 # 2); Randint 4294967295; Uniform 0;
                      Uniform (1 # 2); Randint 7; Randint 90;
                      Uniform 0; Randint 1; Uniform (1 # 8); Randint 2])))).
Proof.
  apply (every_line_is_a_frame (py "out.txt") (py "Hi") (1 # 4)).
  - cbn. intuition discriminate.
  - intros c [<- | [<- | []]]; reflexivity.
  - reflexivity.
  - repeat constructor.
Defined.

(** * Further properties of generate_string *)

Lemma digits_length_lower (n : Z) (k : nat) :
  (2 ^ Z.of_nat k <= n)%Z -> (k < List.length (digits n))%nat.
Proof.
  intro H. assert (0 < 2 ^ Z.of_nat k)%Z by (apply Z.pow_pos_nonneg; lia).
  destruct n as [ | p | p]; try lia.
  rewrite digits_pos, pos_digits_length. now apply size_nat_lower.
Qed.

Lemma frame_grammar_size_bits (s : pystr) :
  frame_grammar s = true -> forallb is_bit (size_field s) = true.
Proof.
  unfold frame_grammar, size_field.
  destruct s as [ | a [ | u1 rest]]; try discriminate.
  intro H. repeat (apply andb_prop in H; destruct H as [H ?]).
  cbn [skipn]. assumption.
Qed.

Lemma flag_value_bit_of (b : bool) : flag_value [bit_of b] = Some b.
Proof. now destruct b. Qed.


(** X2: for every [size >= 0] and every character, also beyond the widths
    of the fields, cutting the frame at its underscores and reading the
    flags and the two binary numerals gives the four arguments back. *)
Theorem generate_string_round_trip
  (size_valid : bool) (size : Z) (data_valid : bool) (c : char) :
  (0 <= size)%Z ->
  exists s,
    generate_string size_valid size data_valid [c] = Ok s
    /\ decode_frame s = Some (size_valid, size, data_valid, Z.of_N c).
Proof.
  intro Hs. exists (frame_of size_valid size data_valid c).
  split; [apply generate_string_char | ].
  unfold decode_frame. rewrite read_frame_frame_of.
  cbn [size_valid_bit size_bits data_valid_bit data_bits].
  rewrite !flag_value_bit_of, (int2_zfill 32 size Hs), int2_zfill by lia.
  reflexivity.
Qed.

Lemma generate_string_round_trip_witness :
  exists s,
    generate_string false 4294967296 true [955%N] = Ok s
    /\ decode_frame s = Some (false, 4294967296%Z, true, Z.of_N 955).
Proof.
  apply (generate_string_round_trip false 4294967296 true 955%N). lia.
Defined.

(** X3: on a character, the string [generate_string] returns matches the
    grammar of a frame exactly when [0 <= size < 2^32] and the code point
    is below 256. *)
Theorem generate_string_well_formed_iff
  (size_valid : bool) (size : Z) (data_valid : bool) (c : char) :
  exists s,
    generate_string size_valid size data_valid [c] = Ok s
    /\ (frame_grammar s = true <-> (0 <= size < 2 ^ 32)%Z /\ (c < 256)%N).
Proof.
  exists (frame_of size_valid size data_valid c).
  split; [apply generate_string_char | ]. split.
  - intro G. pose proof (frame_grammar_length _ G) as L.
    rewrite frame_of_length in L.
    assert (L32 : (List.length (digits size) <= 32)%nat) by lia.
    assert (L8 : (List.length (digits (Z.of_N c)) <= 8)%nat) by lia.
    split.
    + destruct (Z.lt_ge_cases size 0) as [Hneg | Hpos].
      * apply frame_grammar_size_bits in G.
        rewrite size_field_frame_of in G by exact L32.
        unfold zfill_right in G. rewrite forallb_app in G.
        apply andb_prop in G. destruct G as [_ G].
        destruct size as [ | p | p]; try lia.
        rewrite digits_neg in G. discriminate G.
      * split; trivial. destruct (Z.lt_ge_cases size (2 ^ 32)) as [ | Hbig]; trivial.
        pose proof (digits_length_lower size 32 Hbig). lia.
    + destruct (N.lt_ge_cases c 256) as [ | Hbig]; trivial.
      assert (Hz : (2 ^ Z.of_nat 8 <= Z.of_N c)%Z)
        by (change (2 ^ Z.of_nat 8)%Z with 256%Z; lia).
      pose proof (digits_length_lower _ 8 Hz). lia.
  - intros [Hs Hc]. now apply frame_of_grammar.
Qed.

(** X4: a negative [size] raises nothing: [bin] gives ["-0b..."], the
    slice cuts ["-0"] and the field keeps ["b"] and the digits of [-size],
    behind zeros up to 32 characters; it cannot be read as a binary
    numeral. *)
Theorem negative_size_keeps_b
  (size_valid : bool) (size : Z) (data_valid : bool) (c : char) :
  (size < 0)%Z ->
  exists s f,
    generate_string size_valid size data_valid [c] = Ok s
    /\ read_frame s = Some f
    /\ size_bits f = zfill_right 32 (98%N :: from2 (bin (- size)))
    /\ int2 (size_bits f) = None
    /\ decode_frame s = None.
Proof.
  intro Hs. destruct size as [ | p | p]; try lia.
  exists (frame_of size_valid (Zneg p) data_valid c). eexists.
  split; [apply generate_string_char | ].
  split; [apply read_frame_frame_of | ].
  cbn [size_bits]. rewrite digits_neg.
  assert (E : int2 (zfill_right 32 (98%N :: pos_digits p [])) = None).
  { unfold zfill_right, int2.
    destruct (repeat 48%N (32 - List.length (98%N :: pos_digits p []))
                ++ 98%N :: pos_digits p []) eqn:E.
    - now apply app_eq_nil in E.
    - rewrite <- E, int2_from_zeros. reflexivity. }
  split; [reflexivity | ]. split; [exact E | ].
  unfold decode_frame. rewrite read_frame_frame_of.
  cbn [size_valid_bit size_bits data_valid_bit data_bits].
  rewrite digits_neg, E. now destruct (flag_value [bit_of size_valid]).
Qed.

Lemma negative_size_keeps_b_witness :
  exists s f,
    generate_string true (-5) false [65%N] = Ok s
    /\ read_frame s = Some f
    /\ size_bits f = zfill_right 32 (98%N :: from2 (bin (- (-5))))
    /\ int2 (size_bits f) = None
    /\ decode_frame s = None.
Proof.
  apply (negative_size_keeps_b true (-5) false 65%N). lia.
Defined.

(** * Further properties of generate_datafile *)

Lemma decode_frame_frame_of
  (size_valid : bool) (size : Z) (data_valid : bool) (c : char) :
  (0 <= size)%Z ->
  decode_frame (frame_of size_valid size data_valid c)
  = Some (size_valid, size, data_valid, Z.of_N c).
Proof.
  intro Hs. unfold decode_frame. rewrite read_frame_frame_of.
  cbn [size_valid_bit size_bits data_valid_bit data_bits].
  rewrite !flag_value_bit_of, (int2_zfill 32 size Hs), int2_zfill by lia.
  reflexivity.
Qed.


(** X6: when [data] has no line feed, every line behind the comment, in a
    finished file or in one still being written, reads back as a frame
    [(size_valid, size, data_valid, code)] with [size >= 0] in which the
    two flags are never both up, size_valid comes only with
    [size = len(data)] and code 0, and data_valid only with the code
    point of a character of [data]. *)
Theorem lines_decode_safely
  (filename data : pystr) (random_value_chance : Q) (t : tape) :
  ~ In 10%N data ->
  Forall (fun l =>
            exists sv size dv code,
              decode_frame l = Some (sv, size, dv, code)
              /\ (0 <= size)%Z
              /\ sv && dv = false
              /\ (sv = true -> size = len data /\ code = 0%Z)
              /\ (dv = true -> exists c, In c data /\ code = Z.of_N c))
    (tl (lines (file_text (generate_datafile filename data random_value_chance t)))).
Proof.
  intro Hnl.
  destruct (run_entries (fun _ => True) filename data random_value_chance t
              (tape_sat_True t)) as (es & E & Hes & _).
  rewrite (lines_of_run filename data es _ Hnl E). cbn [tl].
  apply Forall_forall. intros l Hl. apply in_map_iff in Hl.
  destruct Hl as (e & <- & He). rewrite Forall_forall in Hes.
  exists (e_size_valid e), (e_size e), (e_data_valid e), (Z.of_N (e_char e)).
  unfold entry_frame.
  destruct (Hes e He) as [(Hsv & Hdv & _ & _ & H0)
                         | [-> | (c & Hc & Hsv & Hdv & Hch & _ & H0)]].
  - rewrite decode_frame_frame_of by exact H0. rewrite Hsv, Hdv.
    repeat split; trivial; discriminate.
  - cbn [terminal e_size_valid e_size e_data_valid e_char].
    assert (H0 : (0 <= len data)%Z) by (unfold len; lia).
    rewrite decode_frame_frame_of by exact H0.
    repeat split; trivial; discriminate.
  - rewrite decode_frame_frame_of by exact H0. rewrite Hsv, Hdv, Hch.
    repeat split; trivial; try discriminate.
    intros _. now exists c.
Qed.

Lemma lines_decode_safely_witness :
  Forall (fun l =>
            exists sv size dv code,
              decode_frame l = Some (sv, size, dv, code)
              /\ (0 <= size)%Z
              /\ sv && dv = false
              /\ (sv = true -> size = len [955%N; 72%N] /\ code = 0%Z)
              /\ (dv = true -> exists c, In c [955%N; 72%N] /\ code = Z.of_N c))
    (tl (lines (file_text
                  (generate_datafile (py "out.txt") [955%N; 72%N] (1 # 4)
                     [Uniform (1 # 2); Randint 4294967296; Uniform 0;
                      Uniform (1 # 2); Randint 7; Randint 90;
                      Uniform 0; Randint 1; Uniform (1 # 8)])))).
Proof.
  apply (lines_decode_safely (py "out.txt") [955%N; 72%N] (1 # 4)).
  cbn. intuition discriminate.
Defined.

(** ** The order of the frames *)

Lemma size_loop_order (data : pystr) (p : Q) (t : tape) :
  exists sizes,
    Forall (fun i => (0 <= i)%Z) sizes
    /\ match snd (size_loop data p t) with
       | Returned _ =>
           fst (size_loop data p t)
           = map entry_line
               (map (fun i => {| e_size_valid := false; e_size := i;
                                 e_data_valid := false; e_char := 0%N |}) sizes
                  ++ [terminal data])
       | Starved | Refused =>
           fst (size_loop data p t)
           = map entry_line
               (map (fun i => {| e_size_valid := false; e_size := i;
                                 e_data_valid := false; e_char := 0%N |}) sizes)
       | Raised _ => False
       end.
Proof.
  functional induction (size_loop data p t); loop_case;
    try (exists []; split; [constructor | ]; cbn; trivial; fail).
  match goal with
  | IHt : exists _, _ |- _ => destruct IHt as (sizes & Hs & IH)
  end.
  match goal with
  | R : randint_answer _ _ _ = true |- _ => apply randint_answer_range in R
  end.
  exists (i :: sizes). split; [constructor; trivial; lia | ].
  destruct (snd (size_loop data p t2)); trivial; cbn [map app]; now rewrite IH.
Qed.

(** X7: in the file of a run that returned ([data] without a line feed)
    the frames come in the order of the two phases: noise frames with data
    0, then the one frame with size_valid up, which reads [len(data)], and
    behind it only frames with size_valid down; nothing follows the size
    frame when [data] is empty. *)
Theorem size_frame_comes_first
  (filename data : pystr) (random_value_chance : Q) (t rest : tape) :
  ~ In 10%N data ->
  result (generate_datafile filename data random_value_chance t) = Returned rest ->
  exists before size_line after,
    tl (lines (file_text (generate_datafile filename data random_value_chance t)))
    = before ++ size_line :: after
    /\ Forall (fun l => exists size, decode_frame l = Some (false, size, false, 0%Z))
         before
    /\ decode_frame size_line = Some (true, len data, false, 0%Z)
    /\ Forall (fun l => exists size dv code,
                   decode_frame l = Some (false, size, dv, code)) after
    /\ (data = [] -> after = []).
Proof.
  intros Hnl Hr.
  destruct (size_loop_order data random_value_chance t) as (sizes & Hs & H1).
  assert (E : exists es2,
             effects (generate_datafile filename data random_value_chance t)
             = opening filename data
                 ++ map Write
                      (map entry_line
                         ((map (fun i => {| e_size_valid := false; e_size := i;
                                            e_data_valid := false; e_char := 0%N |})
                             sizes ++ [terminal data]) ++ es2))
                 ++ closing (result (generate_datafile filename data
                                       random_value_chance t))
             /\ Forall (fun e => e_size_valid e = false /\ (0 <= e_size e)%Z) es2
             /\ (data = [] -> es2 = [])).
  { revert Hr. unfold generate_datafile. fold (opening filename data).
    destruct (size_loop data random_value_chance t) as [w1 o1].
    cbn [fst snd] in H1.
    destruct o1 as [t1 | | | e]; cbn [effects result]; try discriminate.
    intro Hr.
    destruct (for_loop_entries (fun _ => True) random_value_chance data t1
                (tape_sat_True t1)) as (es2 & H2 & Hes & _).
    exists es2. split; [now rewrite H1, H2, <- map_app | ]. split.
    - eapply Forall_impl; [ | exact Hes].
      intros a [(Ha & _ & _ & _ & H0) | (c & _ & Ha & _ & _ & _ & H0)]; now split.
    - intros ->. cbn in H2. symmetry in H2. now apply map_eq_nil in H2. }
  destruct E as (es2 & E & Hes2 & Hempty).
  rewrite (lines_of_run filename data _ _ Hnl E). cbn [tl].
  rewrite !map_app, map_map. cbn [map]. rewrite <- app_assoc. cbn [app].
  eexists _, _, _. split; [reflexivity | ].
  split.
  { apply Forall_forall. intros l Hl. apply in_map_iff in Hl.
    destruct Hl as (i & <- & Hi). rewrite Forall_forall in Hs.
    exists i. unfold entry_frame. cbn [e_size_valid e_size e_data_valid e_char].
    now rewrite decode_frame_frame_of by (now apply Hs). }
  split.
  { unfold entry_frame, terminal. cbn [e_size_valid e_size e_data_valid e_char].
    rewrite decode_frame_frame_of by (unfold len; lia). reflexivity. }
  split.
  { apply Forall_forall. intros l Hl. apply in_map_iff in Hl.
    destruct Hl as (e & <- & He). rewrite Forall_forall in Hes2.
    destruct (Hes2 e He) as [Hsv H0].
    exists (e_size e), (e_data_valid e), (Z.of_N (e_char e)).
    unfold entry_frame. now rewrite decode_frame_frame_of, Hsv by exact H0. }
  intros Hd. now rewrite (Hempty Hd).
Qed.

Lemma size_frame_comes_first_witness :
  let r := generate_datafile (py "out.txt") (py "A") (1 # 4)
             [Uniform (1 # 2); Randint 9; Uniform 0;
              Uniform (1 # 2); Randint 7; Randint 90; Uniform 0; Randint 1] in
  exists before size_line after,
    tl (lines (file_text r)) = before ++ size_line :: after
    /\ Forall (fun l => exists size, decode_frame l = Some (false, size, false, 0%Z))
         before
    /\ decode_frame size_line = Some (true, len (py "A"), false, 0%Z)
    /\ Forall (fun l => exists size dv code,
                   decode_frame l = Some (false, size, dv, code)) after
    /\ (py "A" = [] -> after = []).
Proof.
  apply (size_frame_comes_first (py "out.txt") (py "A") (1 # 4) _ []).
  - cbn. intuition discriminate.
  - reflexivity.
Defined.

(** ** The upper end of the size draw *)



(** ** The draws a run reads *)

Lemma size_loop_reads (data : pystr) (p : Q) (t t1 : tape) :
  snd (size_loop data p t) = Returned t1 ->
  exists used, t = used ++ t1 /\ (1 <= List.length used)%nat.
Proof.
  functional induction (size_loop data p t); cbn [snd wrote];
    try discriminate; intro H.
  - injection H as <-. exists [Uniform random_number]. split; [reflexivity | cbn; lia].
  - match goal with
    | IHt : _ -> exists _, _ |- _ => destruct (IHt H) as (used & -> & L)
    end.
    exists (Uniform random_number :: Randint i :: used).
    split; [reflexivity | cbn; lia].
Qed.

Lemma char_loop_reads (p : Q) (c : pystr) (t t1 : tape) :
  snd (char_loop p c t) = Returned t1 ->
  exists used, t = used ++ t1 /\ (2 <= List.length used)%nat.
Proof.
  functional induction (char_loop p c t); cbn [snd wrote];
    try discriminate; intro H.
  - injection H as <-. exists [Uniform random_number; Randint i].
    split; [reflexivity | cbn; lia].
  - match goal with
    | IHt : _ -> exists _, _ |- _ => destruct (IHt H) as (used & -> & L)
    end.
    exists (Uniform random_number :: Randint i :: Randint j :: used).
    split; [reflexivity | cbn; lia].
Qed.

Lemma for_loop_reads (p : Q) (data : pystr) (t t1 : tape) :
  snd (for_loop p data t) = Returned t1 ->
  exists used, t = used ++ t1 /\ (2 * List.length data <= List.length used)%nat.
Proof.
  revert t. induction data as [ | c data IH]; intros t H.
  - cbn in H. injection H as <-. now exists [].
  - cbn [for_loop] in H.
    destruct (char_loop p [c] t) as [w o] eqn:E.
    destruct o as [t' | | | e]; cbn [snd] in H; try discriminate.
    destruct (char_loop_reads p [c] t t') as (u1 & -> & L1); [now rewrite E | ].
    destruct (IH t' H) as (u2 & -> & L2).
    exists (u1 ++ u2). split; [now rewrite app_assoc | ].
    rewrite length_app. cbn [List.length]. lia.
Qed.

(** X9: a run returns only after reading the tape from its front, and at
    least [1 + 2 * len(data)] draws of it: a float for the first loop, a
    float and a size for each character; what it returns with is the
    unread rest. *)
Theorem returning_run_reads
  (filename data : pystr) (random_value_chance : Q) (t rest : tape) :
  result (generate_datafile filename data random_value_chance t) = Returned rest ->
  exists used,
    t = used ++ rest /\ (1 + 2 * List.length data <= List.length used)%nat.
Proof.
  unfold generate_datafile.
  destruct (size_loop data random_value_chance t) as [w1 o1] eqn:E1.
  destruct o1 as [t1 | | | e]; cbn [result]; try discriminate.
  intro H.
  destruct (size_loop_reads data random_value_chance t t1) as (u1 & -> & L1);
    [now rewrite E1 | ].
  destruct (for_loop_reads random_value_chance data t1 rest H) as (u2 & -> & L2).
  exists (u1 ++ u2). split; [now rewrite app_assoc | ].
  rewrite length_app. lia.
Qed.

Lemma returning_run_reads_witness :
  exists used,
    [Uniform (1 # 2); Randint 9; Uniform 0; Uniform 0; Randint 1; Uniform 0]
    = used ++ [Uniform 0]
    /\ (1 + 2 * List.length (py "A") <= List.length used)%nat.
Proof.
  apply (returning_run_reads (py "out.txt") (py "A") (1 # 4)). reflexivity.
Defined.

(** ** The range of the chance *)

Lemma trial_fails_at_nonpositive (p x : Q) :
  (p <= 0)%Q -> uniform_answer x = true -> Qltb x p = false.
Proof.
  intros Hp Hx. unfold uniform_answer in Hx. apply andb_prop in Hx.
  destruct Hx as [Hx _]. apply Qle_bool_iff in Hx.
  unfold Qltb. apply negb_false_iff, Qle_bool_iff.
  now apply Qle_trans with 0%Q.
Qed.

Lemma trial_succeeds_from_1 (p x : Q) :
  (1 <= p)%Q -> uniform_answer x = true -> Qltb x p = true.
Proof.
  intros Hp Hx. unfold uniform_answer in Hx. apply andb_prop in Hx.
  destruct Hx as [_ Hx]. unfold Qltb in *. apply negb_true_iff in Hx.
  apply negb_true_iff. destruct (Qle_bool p x) eqn:E; trivial.
  apply Qle_bool_iff in E.
  assert (H1 : Qle_bool 1 x = true) by (apply Qle_bool_iff; now apply Qle_trans with p).
  congruence.
Qed.

Lemma size_loop_nonpositive (data : pystr) (p : Q) (t : tape) :
  (p <= 0)%Q ->
  snd (size_loop data p t) = Starved \/ snd (size_loop data p t) = Refused.
Proof.
  intro Hp.
  functional induction (size_loop data p t); loop_case;
    try ((now left) || (now right) || assumption).
  match goal with
  | U : uniform_answer _ = true, L : Qltb _ _ = true |- _ =>
      rewrite (trial_fails_at_nonpositive _ _ Hp U) in L; discriminate L
  end.
Qed.

(** X10: some tape of draws makes [generate_datafile] return exactly when
    [random_value_chance > 0]; a chance of 0 or below is not rejected, the
    first loop just never ends. *)
Theorem returns_iff_positive_chance (filename data : pystr) (random_value_chance : Q) :
  (exists t rest,
      result (generate_datafile filename data random_value_chance t) = Returned rest)
  <-> (0 < random_value_chance)%Q.
Proof.
  split.
  - intros (t & rest & H).
    destruct (Qlt_le_dec 0 random_value_chance) as [ | Hp]; trivial.
    exfalso. revert H. unfold generate_datafile.
    pose proof (size_loop_nonpositive data random_value_chance t Hp) as O.
    destruct (size_loop data random_value_chance t) as [w o]. cbn [snd] in O.
    destruct O as [-> | ->]; discriminate.
  - intro Hp. eexists _, _. now apply datafile_can_return.
Qed.

(** X11: a chance of 1 or above is not rejected either and behaves as 1:
    on the draws of a run every loop succeeds on its first trial, the run
    returns after exactly [1 + 2 * len(data)] draws and writes the
    comment, the size frame and one data frame for each character. *)
Theorem chance_from_1_is_certain
  (filename data : pystr) (random_value_chance x0 : Q) (draws : list (Q * Z)) :
  (1 <= random_value_chance)%Q ->
  uniform_answer x0 = true ->
  Forall good_draw draws ->
  List.length draws = List.length data ->
  generate_datafile filename data random_value_chance (Uniform x0 :: trial_draws draws)
  = {| effects :=
         opening filename data
           ++ Write (frame_line true (len data) false 0%N)
           :: map (fun cd => Write (frame_line false (snd (snd cd)) true (fst cd)))
                (combine data draws)
           ++ [Close];
       result := Returned [] |}
  /\ List.length (Uniform x0 :: trial_draws draws) = (1 + 2 * List.length data)%nat.
Proof.
  intros Hp Hx Hd Hl. split.
  - rewrite datafile_first_trials; trivial.
    + f_equal. f_equal. cbn [map]. unfold entry_line, terminal.
      cbn [e_size_valid e_size e_data_valid e_char].
      rewrite frame_line_frame_of. cbn [app].
      f_equal. f_equal. rewrite map_map. apply map_ext. intro cd.
      now rewrite frame_line_frame_of.
    + now apply trial_succeeds_from_1.
    + eapply Forall_impl; [ | exact Hd]. intros d [H1 H2].
      repeat split; trivial. now apply trial_succeeds_from_1.
  - assert (L : List.length (trial_draws draws) = (2 * List.length draws)%nat).
    { clear. induction draws as [ | d draws IH]; trivial.
      change (trial_draws (d :: draws))
        with (Uniform (fst d) :: Randint (snd d) :: trial_draws draws).
      cbn [List.length]. rewrite IH. lia. }
    cbn [List.length]. rewrite L, Hl. lia.
Qed.

Lemma chance_from_1_is_certain_witness :
  generate_datafile (py "out.txt") (py "Hi") 2
    (Uniform 0 :: trial_draws [((1 # 2)%Q, 5%Z); ((3 # 4)%Q, 4294967296%Z)])
  = {| effects :=
         opening (py "out.txt") (py "Hi")
           ++ Write (frame_line true (len (py "Hi")) false 0%N)
           :: map (fun cd => Write (frame_line false (snd (snd cd)) true (fst cd)))
                (combine (py "Hi") [((1 # 2)%Q, 5%Z); ((3 # 4)%Q, 4294967296%Z)])
           ++ [Close];
       result := Returned [] |}
  /\ List.length
       (Uniform 0 :: trial_draws [((1 # 2)%Q, 5%Z); ((3 # 4)%Q, 4294967296%Z)])
     = (1 + 2 * List.length (py "Hi"))%nat.
Proof.
  apply (chance_from_1_is_certain (py "out.txt") (py "Hi") 2).
  - discriminate.
  - reflexivity.
  - repeat constructor.
  - reflexivity.
Defined.

(** * Further properties of the entry point *)

Lemma filter_map_commute (A B : Type) (g : A -> B) (f : B -> bool) (l : list A) :
  filter f (map g l) = map g (filter (fun a => f (g a)) l).
Proof.
  induction l as [ | a l IH]; trivial. cbn. rewrite IH. now destruct (f (g a)).
Qed.

(** The file of a run that returned, read back with [decode_frame]. *)
Lemma returned_file_decodes
  (filename data : pystr) (p : Q) (t rest : tape) :
  ~ In 10%N data ->
  result (generate_datafile filename data p t) = Returned rest ->
  exists frames,
    map decode_frame (tl (lines (file_text (generate_datafile filename data p t))))
    = map Some frames
    /\ hd [] (lines (file_text (generate_datafile filename data p t)))
       = py "# " ++ data
    /\ filter is_comment (lines (file_text (generate_datafile filename data p t)))
       = [py "# " ++ data]
    /\ filter tuple_size_valid frames = [(true, len data, false, 0%Z)]
    /\ map tuple_code (filter tuple_data_valid frames) = map Z.of_N data.
Proof.
  intros Hnl Hr.
  destruct (run_entries (fun _ => True) filename data p t (tape_sat_True t))
    as (es & E & Hes & Hres).
  rewrite Hr in Hres. destruct Hres as [Hsv Hdv].
  rewrite (lines_of_run filename data es _ Hnl E). cbn [hd tl].
  exists (map entry_tuple es). split.
  { rewrite !map_map. apply map_ext_in. intros e He.
    rewrite Forall_forall in Hes. unfold entry_frame, entry_tuple.
    apply decode_frame_frame_of.
    destruct (Hes e He) as [(_ & _ & _ & _ & H0)
                           | [-> | (c & _ & _ & _ & _ & _ & H0)]]; trivial.
    unfold terminal, len. cbn. lia. }
  split; [reflexivity | ]. split.
  { change (filter is_comment ((py "# " ++ data) :: map entry_frame es))
      with ((py "# " ++ data) :: filter is_comment (map entry_frame es)).
    now rewrite entry_frame_not_comment. }
  rewrite !filter_map_commute.
  change (fun a => tuple_size_valid (entry_tuple a)) with e_size_valid.
  change (fun a => tuple_data_valid (entry_tuple a)) with e_data_valid.
  rewrite Hsv. split; [reflexivity | ].
  rewrite <- Hdv, !map_map. reflexivity.
Qed.



(** X13: on the command line the data is the result of [ascii]; as long
    as that has no line feed (the builtin escapes it), the file of every
    run that returns starts with its only comment line, ["# "] and the
    escaped argument, and every other line reads back as a frame: one with
    size_valid up, for the length of the escaped argument, and the frames
    with data_valid up spell the escaped argument in order. *)
Theorem main_file_reads_back
  (ascii_repr lower : pystr -> pystr) (argv : list pystr) (arg : pystr)
  (t rest : tape) :
  (forall s, ~ In 10%N (ascii_repr s)) ->
  nth_error argv 1 = Some arg ->
  result (main ascii_repr lower argv t) = Returned rest ->
  let ls := lines (file_text (main ascii_repr lower argv t)) in
  exists frames,
    map decode_frame (tl ls) = map Some frames
    /\ hd [] ls = py "# " ++ ascii_repr arg
    /\ filter is_comment ls = [py "# " ++ ascii_repr arg]
    /\ filter tuple_size_valid frames = [(true, len (ascii_repr arg), false, 0%Z)]
    /\ map tuple_code (filter tuple_data_valid frames) = map Z.of_N (ascii_repr arg).
Proof.
  intros Hascii Hargv Hr ls. subst ls.
  assert (Em : main ascii_repr lower argv t
               = {| effects :=
                      Print (py "Generating data for string: " ++ ascii_repr arg)
                      :: effects (generate_datafile (lower (ascii_repr arg))
                                    (ascii_repr arg) (1 # 4)%Q t);
                    result := result (generate_datafile (lower (ascii_repr arg))
                                        (ascii_repr arg) (1 # 4)%Q t) |})
    by (unfold main; now rewrite Hargv).
  rewrite Em in Hr |- *. cbn [result] in Hr.
  change (file_text
            {| effects :=
                 Print (py "Generating data for string: " ++ ascii_repr arg)
                 :: effects (generate_datafile (lower (ascii_repr arg))
                               (ascii_repr arg) (1 # 4)%Q t);
               result := result (generate_datafile (lower (ascii_repr arg))
                                   (ascii_repr arg) (1 # 4)%Q t) |})
    with (file_text (generate_datafile (lower (ascii_repr arg))
                       (ascii_repr arg) (1 # 4)%Q t)).
  exact (returned_file_decodes _ _ _ _ _ (Hascii arg) Hr).
Qed.

Lemma main_file_reads_back_witness :
  let ascii_repr := fun _ : list N => py "'Hi'" in
  let ls := lines (file_text (main ascii_repr (fun s => s)
                                [py "data_generation.py"; py "Hi"]
                                (Uniform 0 :: trial_draws
                                   [(0%Q, 1%Z); (0%Q, 2%Z); (0%Q, 3%Z); (0%Q, 4%Z)]))) in
  exists frames,
    map decode_frame (tl ls) = map Some frames
    /\ hd [] ls = py "# " ++ ascii_repr (py "Hi")
    /\ filter is_comment ls = [py "# " ++ ascii_repr (py "Hi")]
    /\ filter tuple_size_valid frames
       = [(true, len (ascii_repr (py "Hi")), false, 0%Z)]
    /\ map tuple_code (filter tuple_data_valid frames)
       = map Z.of_N (ascii_repr (py "Hi")).
Proof.
  apply (main_file_reads_back (fun _ : list N => py "'Hi'") (fun s => s)
           [py "data_generation.py"; py "Hi"] (py "Hi") _ []).
  - intros _. cbn. intuition discriminate.
  - reflexivity.
  - reflexivity.
Defined.
